(** * dn: comparison of X.509 distinguished names (RFC 5280, section 7)

    A shallow embedding of [dn.go] and of the part of Go's [encoding/asn1],
    [unicode/utf8], [unicode/utf16], [encoding/hex] and [strings] that it
    calls, followed by the properties of the comparison.

    Conventions.
    - A Go [[]byte] and a Go [string] are both [list byte].
    - A Go [int]/[rune] is a [Z]; offsets into a slice are [nat].  No value
      computed here reaches 2^63, so 64-bit wrap-around never happens.
    - A Go function returning [(v, err)] returns a [result]: [Ok v] when
      [err == nil], [Err e] otherwise (every error path of [dn.go] returns
      the zero value next to the error).
    - The packages [unicode] (case-folding orbits) and
      [github.com/tardevnull/ldapstrprep] are interfaces ([Class]es): the
      comparison only calls them. *)

From Stdlib Require Import List ZArith Bool Lia String Ascii Permutation.
From Stdlib.Strings Require Import Byte.
Import ListNotations.

Local Open Scope Z_scope.

(** ** Bytes, strings, runes *)

Definition bytes := list byte.
Definition gostring := list byte.
Definition rune := Z.

Definition u8 (b : byte) : Z := Z.of_N (Byte.to_N b).

Definition byte_of_Z (z : Z) : byte :=
  match Byte.of_N (Z.to_N (z mod 256)) with
  | Some b => b
  | None => x00
  end.

Definition bytes_eqb (x y : bytes) : bool :=
  if list_eq_dec Byte.byte_eq_dec x y then true else false.

(** [s[i]] with the bounds test made explicit. *)
Definition at_ (s : bytes) (i : nat) : option byte := nth_error s i.

(** [s[lo:hi]] for [lo <= hi <= len(s)]. *)
Definition slice {A} (s : list A) (lo hi : nat) : list A :=
  firstn (hi - lo) (skipn lo s).

(** ** Results and errors

    Go compares [error] values by identity, so two errors made at different
    places are different even when their messages agree: an error is
    modelled by the place that makes it. *)

Inductive error : Type :=
| EmptyIssuerError
    (* "dn: the issuer field must contain a non-empty distinguished name" *)
| DnTrailingDataError
    (* "dn: failed to parse distinguished name" *)
| BoundsError
    (* "dn: rdnSET bounds out of range" *)
| DomainComponentEncodingError
    (* "dn: domain component should be IA5String" *)
| StringTrailingDataError
    (* "dn: trailing data after ASN.1 of string" *)
| SyntaxError (msg : string)      (* asn1.SyntaxError{msg} *)
| StructuralError (msg : string)  (* asn1.StructuralError{msg} *)
| Asn1Error (msg : string)        (* errors.New(msg) inside encoding/asn1 *)
| ProhibitedCharacterError (msg : string)
    (* the error handed back by ldapstrprep.IsProhibited *).

(** [Panic] is a run-time panic of the Go program (an index out of range).
    The loop models below also answer [Panic] when their iteration budget is
    used up; the [_no_panic] lemmas show that neither ever happens. *)
Inductive result (A : Type) : Type :=
| Ok (a : A)
| Err (e : error)
| Panic.

Arguments Ok {A} a.
Arguments Err {A} e.
Arguments Panic {A}.

Definition bind {A B} (r : result A) (k : A -> result B) : result B :=
  match r with
  | Ok a => k a
  | Err e => Err e
  | Panic => Panic
  end.

Notation "'let*' x ':=' r 'in' k" := (bind r (fun x => k))
  (at level 10, x pattern, r at level 100, k at level 200).


(** ** encoding/hex

    [hex.DecodeString]: the bytes decoded before the first error (an odd
    length or a character that is no hexadecimal digit); the test file
    ignores the error. *)

Module hex.

Definition fromHexChar (c : ascii) : option Z :=
  let n := Z.of_nat (nat_of_ascii c) in
  if (48 <=? n) && (n <=? 57) then Some (n - 48)
  else if (97 <=? n) && (n <=? 102) then Some (n - 97 + 10)
  else if (65 <=? n) && (n <=? 70) then Some (n - 65 + 10)
  else None.

Fixpoint DecodeString (s : string) : bytes :=
  match s with
  | String c1 (String c2 s') =>
      match fromHexChar c1, fromHexChar c2 with
      | Some a, Some b => byte_of_Z (Z.lor (Z.shiftl a 4) b) :: DecodeString s'
      | _, _ => []
      end
  | _ => []
  end.

End hex.

(** ** unicode/utf8 and unicode/utf16 *)

Module utf8.

Definition RuneSelf : Z := 0x80.
Definition RuneError : rune := 0xFFFD.
Definition MaxRune : rune := 0x10FFFF.
Definition surrogateMin : rune := 0xD800.
Definition surrogateMax : rune := 0xDFFF.
Definition rune1Max : rune := 0x7F.
Definition rune2Max : rune := 0x7FF.
Definition rune3Max : rune := 0xFFFF.

(** [utf8.AppendRune(nil, r)]. *)
Definition encoderune3 (r : rune) : bytes :=
  [ byte_of_Z (Z.lor 0xE0 (Z.shiftr r 12));
    byte_of_Z (Z.lor 0x80 (Z.land (Z.shiftr r 6) 0x3F));
    byte_of_Z (Z.lor 0x80 (Z.land r 0x3F)) ].

Definition encoderune (r : rune) : bytes :=
  if (0 <=? r) && (r <=? rune1Max) then [ byte_of_Z r ]
  else if (0 <=? r) && (r <=? rune2Max) then
    [ byte_of_Z (Z.lor 0xC0 (Z.shiftr r 6));
      byte_of_Z (Z.lor 0x80 (Z.land r 0x3F)) ]
  else if (r <? 0) || (MaxRune <? r)
          || ((surrogateMin <=? r) && (r <=? surrogateMax)) then
    encoderune3 RuneError
  else if r <=? rune3Max then encoderune3 r
  else
    [ byte_of_Z (Z.lor 0xF0 (Z.shiftr r 18));
      byte_of_Z (Z.lor 0x80 (Z.land (Z.shiftr r 12) 0x3F));
      byte_of_Z (Z.lor 0x80 (Z.land (Z.shiftr r 6) 0x3F));
      byte_of_Z (Z.lor 0x80 (Z.land r 0x3F)) ].


(** The conversion [string(rs)] of a [[]rune]. *)
Definition string_of_runes (rs : list rune) : gostring :=
  flat_map encoderune rs.

Definition inr_ (lo hi : Z) (b : byte) : bool :=
  (lo <=? u8 b) && (u8 b <=? hi).

(** [utf8.Valid]: the well-formed byte sequences of the Unicode standard
    (the [acceptRanges] table of the package, written out). *)
Fixpoint Valid (p : bytes) : bool :=
  match p with
  | [] => true
  | b0 :: p1 =>
      if u8 b0 <? RuneSelf then Valid p1
      else
        match p1 with
        | [] => false
        | b1 :: p2 =>
            if inr_ 0xC2 0xDF b0 then inr_ 0x80 0xBF b1 && Valid p2
            else
              match p2 with
              | [] => false
              | b2 :: p3 =>
                  if inr_ 0xE0 0xEF b0 then
                    (if u8 b0 =? 0xE0 then inr_ 0xA0 0xBF b1
                     else if u8 b0 =? 0xED then inr_ 0x80 0x9F b1
                     else inr_ 0x80 0xBF b1)
                    && inr_ 0x80 0xBF b2 && Valid p3
                  else
                    match p3 with
                    | [] => false
                    | b3 :: p4 =>
                        inr_ 0xF0 0xF4 b0
                        && (if u8 b0 =? 0xF0 then inr_ 0x90 0xBF b1
                            else if u8 b0 =? 0xF4 then inr_ 0x80 0x8F b1
                            else inr_ 0x80 0xBF b1)
                        && inr_ 0x80 0xBF b2 && inr_ 0x80 0xBF b3 && Valid p4
                    end
              end
        end
  end.

End utf8.

Module utf16.

Definition surr1 : Z := 0xd800.
Definition surr2 : Z := 0xdc00.
Definition surr3 : Z := 0xe000.
Definition surrSelf : Z := 0x10000.
Definition replacementChar : rune := 0xFFFD.

Definition DecodeRune (r1 r2 : rune) : rune :=
  if (surr1 <=? r1) && (r1 <? surr2) && (surr2 <=? r2) && (r2 <? surr3)
  then Z.lor (Z.shiftl (r1 - surr1) 10) (r2 - surr2) + surrSelf
  else replacementChar.

Fixpoint Decode (s : list Z) : list rune :=
  match s with
  | [] => []
  | r :: s1 =>
      if (r <? surr1) || (surr3 <=? r) then r :: Decode s1
      else
        match s1 with
        | r' :: s2 =>
            if (surr1 <=? r) && (r <? surr2) && (surr2 <=? r') && (r' <? surr3)
            then DecodeRune r r' :: Decode s2
            else replacementChar :: Decode s1
        | [] => replacementChar :: Decode s1
        end
  end.

End utf16.

(** ** encoding/asn1

    The DER decoder of the Go standard library, for the four Go types that
    [dn.go] hands to [asn1.Unmarshal]: [string], [dn], [rdnSET] and
    [attribute] (with its fields [asn1.ObjectIdentifier] and
    [asn1.RawValue]).  The library walks the target type by reflection; here
    there is one [parseField_T] per target type [T].  The message of an
    error is the fixed part of the library's message (the library appends
    the tags and offsets it saw to some of them). *)

Module asn1.

Definition TagOID : Z := 6.
Definition TagUTF8String : Z := 12.
Definition TagSequence : Z := 16.
Definition TagSet : Z := 17.
Definition TagNumericString : Z := 18.
Definition TagPrintableString : Z := 19.
Definition TagT61String : Z := 20.
Definition TagIA5String : Z := 22.
Definition TagUTCTime : Z := 23.
Definition TagGeneralizedTime : Z := 24.
Definition TagGeneralString : Z := 27.
Definition TagBMPString : Z := 30.

Definition ClassUniversal : Z := 0.

Definition ObjectIdentifier := list Z.

(** [oi.Equal(other)]. *)
Definition ObjectIdentifier_Equal (oi other : ObjectIdentifier) : bool :=
  if list_eq_dec Z.eq_dec oi other then true else false.

Record RawValue : Type := mkRawValue {
  Class : Z;
  Tag : Z;
  IsCompound : bool;
  Bytes : bytes;
  FullBytes : bytes
}.

Record tagAndLength : Type := mkTagAndLength {
  class : Z;
  tag : Z;
  length : Z;
  isCompound : bool
}.

Definition MaxInt32 : Z := 2147483647.

(** [parseBase128Int]: the loop [for shifted := 0; offset < len(bytes);
    shifted++]; [k] counts down from 5, so [shifted = 5 - k]. *)
Fixpoint parseBase128Int_loop (b : bytes) (k : nat) (ret64 : Z) (offset : nat)
  : result (Z * nat) :=
  match at_ b offset with
  | None => Err (SyntaxError "truncated base 128 integer")
  | Some c =>
      match k with
      | O => Err (StructuralError "base 128 integer too large")
      | S k' =>
          let ret64 := Z.shiftl ret64 7 in
          if Nat.eqb k 5 && (u8 c =? 0x80) then
            Err (SyntaxError "integer is not minimally encoded")
          else
            let ret64 := Z.lor ret64 (Z.land (u8 c) 0x7f) in
            let offset := S offset in
            if Z.land (u8 c) 0x80 =? 0 then
              if ret64 >? MaxInt32 then
                Err (StructuralError "base 128 integer too large")
              else Ok (ret64, offset)
            else parseBase128Int_loop b k' ret64 offset
      end
  end.

Definition parseBase128Int (b : bytes) (initOffset : nat) : result (Z * nat) :=
  parseBase128Int_loop b 5 0 initOffset.

(** The loop over the [numBytes] length octets of the long form. *)
Fixpoint parseLength_loop (b : bytes) (numBytes : nat) (len : Z) (offset : nat)
  : result (Z * nat) :=
  match numBytes with
  | O => Ok (len, offset)
  | S n =>
      match at_ b offset with
      | None => Err (SyntaxError "truncated tag or length")
      | Some c =>
          let offset := S offset in
          if len >=? Z.shiftl 1 23 then Err (StructuralError "length too large")
          else
            let len := Z.lor (Z.shiftl len 8) (u8 c) in
            if len =? 0 then
              Err (StructuralError "superfluous leading zeros in length")
            else parseLength_loop b n len offset
      end
  end.

Definition parseTagAndLength (b : bytes) (initOffset : nat)
  : result (tagAndLength * nat) :=
  match at_ b initOffset with
  | None => Err (Asn1Error "asn1: internal error in parseTagAndLength")
  | Some c =>
      let offset := S initOffset in
      let cls := Z.shiftr (u8 c) 6 in
      let cmp := Z.land (u8 c) 0x20 =? 0x20 in
      let tg := Z.land (u8 c) 0x1f in
      let* (tg, offset) :=
        (if tg =? 0x1f then
           let* (tg, offset) := parseBase128Int b offset in
           if tg <? 0x1f then Err (SyntaxError "non-minimal tag")
           else Ok (tg, offset)
         else Ok (tg, offset)) in
      match at_ b offset with
      | None => Err (SyntaxError "truncated tag or length")
      | Some c =>
          let offset := S offset in
          if Z.land (u8 c) 0x80 =? 0 then
            Ok (mkTagAndLength cls tg (Z.land (u8 c) 0x7f) cmp, offset)
          else
            let numBytes := Z.land (u8 c) 0x7f in
            if numBytes =? 0 then
              Err (SyntaxError "indefinite length found (not DER)")
            else
              let* (len, offset) :=
                parseLength_loop b (Z.to_nat numBytes) 0 offset in
              if len <? 0x80 then Err (StructuralError "non-minimal length")
              else Ok (mkTagAndLength cls tg len cmp, offset)
      end
  end.

(** [invalidLength(offset, length, sliceLength)]; the overflow test
    [offset+length < offset] is kept as written. *)
Definition invalidLength (offset : nat) (len : Z) (sliceLength : nat) : bool :=
  (Z.of_nat offset + len <? Z.of_nat offset)
  || (Z.of_nat offset + len >? Z.of_nat sliceLength).

(** The loop of [parseObjectIdentifier] over the arcs after the first
    varint.  Every call of [parseBase128Int] moves [offset] forward, so
    [fuel = len(bytes)] iterations are never used up. *)
Fixpoint parseObjectIdentifier_loop (b : bytes) (fuel : nat) (offset : nat)
  : result (list Z) :=
  match at_ b offset with
  | None => Ok []
  | Some _ =>
      match fuel with
      | O => Panic
      | S fuel' =>
          let* (v, offset) := parseBase128Int b offset in
          let* s := parseObjectIdentifier_loop b fuel' offset in
          Ok (v :: s)
      end
  end.

Definition parseObjectIdentifier (b : bytes) : result ObjectIdentifier :=
  match b with
  | [] => Err (SyntaxError "zero length OBJECT IDENTIFIER")
  | _ =>
      let* (v, offset) := parseBase128Int b 0 in
      let* s := parseObjectIdentifier_loop b (List.length b) offset in
      if v <? 80 then Ok (v / 40 :: v mod 40 :: s)
      else Ok (2 :: v - 80 :: s)
  end.

(** *** The string types *)

Definition isPrintable (b : byte) : bool :=
  let c := u8 b in
  ((97 <=? c) && (c <=? 122))        (* 'a'..'z' *)
  || ((65 <=? c) && (c <=? 90))      (* 'A'..'Z' *)
  || ((48 <=? c) && (c <=? 57))      (* '0'..'9' *)
  || ((39 <=? c) && (c <=? 41))      (* '\'' .. ')' *)
  || ((43 <=? c) && (c <=? 47))      (* '+' .. '/' *)
  || (c =? 32) || (c =? 58) || (c =? 61) || (c =? 63)
  || (c =? 42)                       (* allowAsterisk *)
  || (c =? 38)                       (* allowAmpersand *).

Definition parsePrintableString (b : bytes) : result gostring :=
  if forallb isPrintable b then Ok b
  else Err (SyntaxError "PrintableString contains invalid character").

Definition isNumeric (b : byte) : bool :=
  ((48 <=? u8 b) && (u8 b <=? 57)) || (u8 b =? 32).

Definition parseNumericString (b : bytes) : result gostring :=
  if forallb isNumeric b then Ok b
  else Err (SyntaxError "NumericString contains invalid character").

Definition parseIA5String (b : bytes) : result gostring :=
  if forallb (fun c => u8 c <? utf8.RuneSelf) b then Ok b
  else Err (SyntaxError "IA5String contains invalid character").

Definition parseT61String (b : bytes) : result gostring := Ok b.

Definition parseUTF8String (b : bytes) : result gostring :=
  if utf8.Valid b then Ok b
  else Err (Asn1Error "asn1: invalid UTF-8 string").

(** The loop of [parseBMPString] that reads big-endian 16-bit units. *)
Fixpoint bmpUnits (b : bytes) : list Z :=
  match b with
  | hi :: lo :: b' => Z.shiftl (u8 hi) 8 + u8 lo :: bmpUnits b'
  | _ => []
  end.

Definition stripTerminator (b : bytes) : bytes :=
  let l := List.length b in
  if (2 <=? l)%nat
     && (match at_ b (l - 1), at_ b (l - 2) with
         | Some x, Some y => (u8 x =? 0) && (u8 y =? 0)
         | _, _ => false
         end)
  then firstn (l - 2) b
  else b.

Definition parseBMPString (b : bytes) : result gostring :=
  if negb (Nat.eqb (Nat.modulo (List.length b) 2) 0) then
    Err (Asn1Error "pkcs12: odd-length BMP string")
  else
    Ok (utf8.string_of_runes (utf16.Decode (bmpUnits (stripTerminator b)))).

(** *** parseField *)

(** The first half of [parseField], common to every target type: read the
    header at [initOffset], match it against what the target type expects
    ([matchAny], [expectedTag], [compoundType] of [getUniversalType]) and cut
    out the contents.  Answers the header, [innerBytes] and the offset after
    the element.  No target type here is optional, so [setDefaultValue] is
    always false. *)
Definition parseFieldHeader (b : bytes) (initOffset : nat)
    (matchAny : bool) (expectedTag : tagAndLength -> Z) (compoundType : bool)
  : result (tagAndLength * bytes * nat) :=
  if Nat.eqb initOffset (List.length b) then
    Err (SyntaxError "sequence truncated")
  else
    let* (t, offset) := parseTagAndLength b initOffset in
    if (negb matchAny
        && (negb (class t =? ClassUniversal) || negb (tag t =? expectedTag t)))
       || (negb matchAny && negb (Bool.eqb (isCompound t) compoundType))
    then Err (StructuralError "tags don't match")
    else if invalidLength offset (length t) (List.length b) then
      Err (SyntaxError "data truncated")
    else
      let offset' := (offset + Z.to_nat (length t))%nat in
      Ok (t, slice b offset offset', offset').

(** Target type [string]: [getUniversalType] answers [TagPrintableString],
    which the special case for strings replaces by the tag on the wire when
    that is one of the other string types. *)
Definition stringUniversalTag (t : tagAndLength) : Z :=
  if class t =? ClassUniversal then
    if (tag t =? TagIA5String) || (tag t =? TagGeneralString)
       || (tag t =? TagT61String) || (tag t =? TagUTF8String)
       || (tag t =? TagNumericString) || (tag t =? TagBMPString)
    then tag t
    else TagPrintableString
  else TagPrintableString.

Definition parseField_string (b : bytes) (initOffset : nat)
  : result (gostring * nat) :=
  let* (t, innerBytes, offset) :=
    parseFieldHeader b initOffset false stringUniversalTag false in
  let universalTag := stringUniversalTag t in
  let* v :=
    (if universalTag =? TagPrintableString then parsePrintableString innerBytes
     else if universalTag =? TagNumericString then parseNumericString innerBytes
     else if universalTag =? TagIA5String then parseIA5String innerBytes
     else if universalTag =? TagT61String then parseT61String innerBytes
     else if universalTag =? TagUTF8String then parseUTF8String innerBytes
     else if universalTag =? TagGeneralString then parseT61String innerBytes
     else if universalTag =? TagBMPString then parseBMPString innerBytes
     else Err (SyntaxError "internal error: unknown string type")) in
  Ok (v, offset).

Definition parseField_ObjectIdentifier (b : bytes) (initOffset : nat)
  : result (ObjectIdentifier * nat) :=
  let* (t, innerBytes, offset) :=
    parseFieldHeader b initOffset false (fun _ => TagOID) false in
  let* v := parseObjectIdentifier innerBytes in
  Ok (v, offset).

Definition parseField_RawValue (b : bytes) (initOffset : nat)
  : result (RawValue * nat) :=
  let* (t, innerBytes, offset) :=
    parseFieldHeader b initOffset true (fun _ => -1) false in
  Ok (mkRawValue (class t) (tag t) (isCompound t) innerBytes
        (slice b initOffset offset), offset).

(** [parseSequenceOf], first loop: count the elements and check each header
    ([for offset := 0; offset < len(bytes);]).  Each header is at least two
    bytes long, so [fuel = len(bytes)] iterations are never used up. *)
Definition sequenceTag (tg : Z) : Z :=
  if (tg =? TagIA5String) || (tg =? TagGeneralString) || (tg =? TagT61String)
     || (tg =? TagUTF8String) || (tg =? TagNumericString)
     || (tg =? TagBMPString)
  then TagPrintableString
  else if (tg =? TagGeneralizedTime) || (tg =? TagUTCTime) then TagUTCTime
  else tg.

Fixpoint parseSequenceOf_count (b : bytes) (fuel : nat)
    (expectedTag : Z) (compoundType : bool) (offset numElements : nat)
  : result nat :=
  match at_ b offset with
  | None => Ok numElements
  | Some _ =>
      match fuel with
      | O => Panic
      | S fuel' =>
          let* (t, offset) := parseTagAndLength b offset in
          if negb (class t =? ClassUniversal)
             || negb (Bool.eqb (isCompound t) compoundType)
             || negb (sequenceTag (tag t) =? expectedTag)
          then Err (StructuralError "sequence tag mismatch")
          else if invalidLength offset (length t) (List.length b) then
            Err (SyntaxError "truncated sequence")
          else
            parseSequenceOf_count b fuel' expectedTag compoundType
              (offset + Z.to_nat (length t))%nat (S numElements)
      end
  end.

(** [parseSequenceOf], second loop: [numElements] calls of [parseField]. *)
Fixpoint parseSequenceOf_fill {A} (parseElem : bytes -> nat -> result (A * nat))
    (b : bytes) (numElements : nat) (offset : nat) : result (list A) :=
  match numElements with
  | O => Ok []
  | S n =>
      let* (v, offset) := parseElem b offset in
      let* vs := parseSequenceOf_fill parseElem b n offset in
      Ok (v :: vs)
  end.

Definition parseSequenceOf {A} (parseElem : bytes -> nat -> result (A * nat))
    (expectedTag : Z) (compoundType : bool) (b : bytes) : result (list A) :=
  let* numElements :=
    parseSequenceOf_count b (List.length b) expectedTag compoundType 0 0 in
  parseSequenceOf_fill parseElem b numElements 0.

End asn1.

(** ** package dn: the data model *)

Record attribute : Type := mkAttribute {
  Oid : asn1.ObjectIdentifier;
  RawValue : asn1.RawValue
}.

(** [type rdnSET []attribute]: the suffix SET of the type name makes
    [encoding/asn1] read it as a SET OF. *)
Definition rdnSET := list attribute.

(** [type dn []rdnSET], a SEQUENCE OF. *)
Definition dn := list rdnSET.

Definition oidDomainComponent : asn1.ObjectIdentifier :=
  [0; 9; 2342; 19200300; 100; 1; 25].

Module asn1_dn.
Import asn1.

(** Target type [attribute], a struct: a SEQUENCE whose contents are parsed
    field by field.  Bytes left over inside the SEQUENCE are allowed by the
    library ("We allow extra bytes at the end of the SEQUENCE"). *)
Definition parseField_attribute (b : bytes) (initOffset : nat)
  : result (attribute * nat) :=
  let* (t, innerBytes, offset) :=
    parseFieldHeader b initOffset false (fun _ => TagSequence) true in
  let* (oid, innerOffset) := parseField_ObjectIdentifier innerBytes 0 in
  let* (raw, innerOffset) := parseField_RawValue innerBytes innerOffset in
  Ok (mkAttribute oid raw, offset).

Definition parseField_rdnSET (b : bytes) (initOffset : nat)
  : result (rdnSET * nat) :=
  let* (t, innerBytes, offset) :=
    parseFieldHeader b initOffset false (fun _ => TagSet) true in
  let* v := parseSequenceOf parseField_attribute TagSequence true innerBytes in
  Ok (v, offset).

Definition parseField_dn (b : bytes) (initOffset : nat) : result (dn * nat) :=
  let* (t, innerBytes, offset) :=
    parseFieldHeader b initOffset false (fun _ => TagSequence) true in
  let* v := parseSequenceOf parseField_rdnSET TagSet true innerBytes in
  Ok (v, offset).

(** [asn1.Unmarshal(b, &val)]: the value and [rest = b[offset:]]. *)
Definition Unmarshal {A} (parseField : bytes -> nat -> result (A * nat))
    (b : bytes) : result (A * bytes) :=
  let* (v, offset) := parseField b 0%nat in
  Ok (v, skipn offset b).

End asn1_dn.

(** ** The collaborators that are only called

    [strings.EqualFold] scans both strings byte by byte as long as both bytes
    are ASCII and jumps to its label [hasUnicode] at the first byte that is
    not; the loop after the label walks runes with [unicode.SimpleFold], whose
    tables are not modelled: it is the method [EqualFold_hasUnicode], called
    with the two suffixes [s[i:]] and [t[i:]]. *)
Class Unicode : Type := {
  EqualFold_hasUnicode : gostring -> gostring -> bool
}.

(** The five functions of package [ldapstrprep] that [stringPrepare] calls.
    [IsProhibited] answers [(bool, error)]. *)
Class LdapStrPrep : Type := {
  Transcode : gostring -> list rune;
  MapCharacters : list rune -> bool -> list rune;
  Normalize : list rune -> list rune;
  IsProhibited : list rune -> bool * option string;
  ApplyInsignificantSpaceHandling : list rune -> list rune
}.

Module strings.
Section EqualFold.
Context `{Unicode}.

Fixpoint EqualFold (s t : gostring) : bool :=
  match s, t with
  | sr :: s', tr :: t' =>
      if Z.lor (u8 sr) (u8 tr) >=? utf8.RuneSelf then EqualFold_hasUnicode s t
      else if u8 tr =? u8 sr then EqualFold s' t'
      else
        let lo := if u8 tr <? u8 sr then u8 tr else u8 sr in
        let hi := if u8 tr <? u8 sr then u8 sr else u8 tr in
        if (65 <=? lo) && (lo <=? 90) && (hi =? lo + 97 - 65)
        then EqualFold s' t'
        else false
  | _, _ => Nat.eqb (List.length s) (List.length t)
  end.

End EqualFold.
End strings.

(** ** package dn: the functions of dn.go *)

Section Dn.
Context `{Unicode} `{LdapStrPrep}.

(** [toString] decodes [src], which is encoded as ASN.1 string, to string. *)
Definition toString (src : bytes) : result gostring :=
  match asn1_dn.Unmarshal asn1.parseField_string src with
  | Err e => Err e
  | Panic => Panic
  | Ok (s, rest) =>
      if negb (Nat.eqb (List.length rest) 0) then Err StringTrailingDataError
      else Ok s
  end.

(** [parseDn] decodes [dnBytes], which is encoded as Distinguished Name. *)
Definition parseDn (dnBytes : bytes) : result dn :=
  match asn1_dn.Unmarshal asn1_dn.parseField_dn dnBytes with
  | Err e => Err e
  | Panic => Panic
  | Ok (d, rest) =>
      if negb (Nat.eqb (List.length rest) 0) then Err DnTrailingDataError
      else Ok d
  end.

(** [stringPrepare]: the six steps of RFC 4518.  When [IsProhibited] answers
    true the function returns [nil] and whatever error came with it, which
    may be [nil]: the result is a pair, not a [result]. *)
Definition stringPrepare (s : gostring) : list rune * option error :=
  let u := Transcode s in
  let u := MapCharacters u true in
  let u := Normalize u in
  let '(isProhibited, err) := IsProhibited u in
  if isProhibited then ([], option_map ProhibitedCharacterError err)
  else
    let u := ApplyInsignificantSpaceHandling u in
    (u, None).

Definition compareByCaseInsensitiveExactMatch (s t : gostring) : bool :=
  strings.EqualFold s t.

Definition compareByCaseIgnoreMatch (s t : gostring) : result bool :=
  let '(sr, err) := stringPrepare s in
  match err with
  | Some e => Err e
  | None =>
      let '(tr, err) := stringPrepare t in
      match err with
      | Some e => Err e
      | None =>
          if bytes_eqb (utf8.string_of_runes sr) (utf8.string_of_runes tr)
          then Ok true
          else Ok false
      end
  end.

Definition compareByBinaryComparison (x y : bytes) : bool :=
  if Nat.eqb (List.length x) 0 || Nat.eqb (List.length y) 0 then false
  else if negb (bytes_eqb x y) then false
  else true.

Definition isComparableDirectoryString (tx ty : Z) : bool :=
  let isXComparable :=
    if tx =? asn1.TagUTF8String then true
    else if tx =? asn1.TagPrintableString then true
    else false in
  let isYComparable :=
    if ty =? asn1.TagUTF8String then true
    else if ty =? asn1.TagPrintableString then true
    else false in
  isXComparable && isYComparable.

Definition compareAttribute (x y : attribute) : result bool :=
  if negb (asn1.ObjectIdentifier_Equal (Oid x) (Oid y)) then Ok false
  else
    let* s := toString (asn1.FullBytes (RawValue x)) in
    let* t := toString (asn1.FullBytes (RawValue y)) in
    if asn1.ObjectIdentifier_Equal (Oid x) oidDomainComponent
       && asn1.ObjectIdentifier_Equal (Oid y) oidDomainComponent
    then
      if negb (asn1.Tag (RawValue x) =? asn1.TagIA5String)
         || negb (asn1.Tag (RawValue y) =? asn1.TagIA5String)
      then Err DomainComponentEncodingError
      else Ok (compareByCaseInsensitiveExactMatch s t)
    else if isComparableDirectoryString (asn1.Tag (RawValue x))
                                        (asn1.Tag (RawValue y))
    then compareByCaseIgnoreMatch s t
    else
      Ok (compareByBinaryComparison (asn1.FullBytes (RawValue x))
                                    (asn1.FullBytes (RawValue y))).

(** [removeAttribute] removes the attribute at [index] from [r]. *)
Definition removeAttribute (index : Z) (r : rdnSET) : result rdnSET :=
  if (index <? 0) || (index >=? Z.of_nat (List.length r)) then Err BoundsError
  else Ok (firstn (Z.to_nat index) r ++ skipn (Z.to_nat index + 1) r).

(** The loop of [findMatchedAttribute]: [for i := 0; i < len(r); i++], with
    [n = len(r) - i] iterations to go.  [rest[i]] panics when out of range. *)
Fixpoint findMatchedAttribute_loop (atv : attribute) (rest : rdnSET)
    (n i : nat) : result (bool * rdnSET) :=
  match n with
  | O => Ok (false, rest)
  | S n' =>
      match nth_error rest i with
      | None => Panic
      | Some y =>
          let* isFound := compareAttribute atv y in
          if isFound then
            let* rest := removeAttribute (Z.of_nat i) rest in
            Ok (true, rest)
          else findMatchedAttribute_loop atv rest n' (S i)
      end
  end.

Definition findMatchedAttribute (atv : attribute) (r : rdnSET)
  : result (bool * rdnSET) :=
  findMatchedAttribute_loop atv r (List.length r) 0.

(** The loop of [compareRelativeDistinguishedName]: [for i := 0; i < len(xr);
    i++], with [n = len(xr) - i]. *)
Fixpoint compareRelativeDistinguishedName_loop (xr rest : rdnSET) (n i : nat)
  : result bool :=
  match n with
  | O => Ok true
  | S n' =>
      match nth_error xr i with
      | None => Panic
      | Some x =>
          let* (isFound, rest) := findMatchedAttribute x rest in
          if negb isFound then Ok false
          else compareRelativeDistinguishedName_loop xr rest n' (S i)
      end
  end.

Definition compareRelativeDistinguishedName (xr yr : rdnSET) : result bool :=
  if negb (Nat.eqb (List.length xr) (List.length yr)) then Ok false
  else compareRelativeDistinguishedName_loop xr yr (List.length xr) 0.

(** The loop of [compareDistinguishedName]: [for i := 0; i < len(xd); i++],
    with [n = len(xd) - i]. *)
Fixpoint compareDistinguishedName_loop (xd yd : dn) (n i : nat) : result bool :=
  match n with
  | O => Ok true
  | S n' =>
      match nth_error xd i, nth_error yd i with
      | Some x, Some y =>
          let* isMatched := compareRelativeDistinguishedName x y in
          if negb isMatched then Ok false
          else compareDistinguishedName_loop xd yd n' (S i)
      | _, _ => Panic
      end
  end.

Definition compareDistinguishedName (xd yd : dn) : result bool :=
  if negb (Nat.eqb (List.length xd) (List.length yd)) then Ok false
  else compareDistinguishedName_loop xd yd (List.length xd) 0.

(** [Compare] reports whether issuer and subject matches. *)
Definition Compare (issuer subject : bytes) : result bool :=
  if Nat.eqb (List.length issuer) 0 then Err EmptyIssuerError
  else if Nat.eqb (List.length subject) 0 then Ok false
  else
    let* i := parseDn issuer in
    let* s := parseDn subject in
    compareDistinguishedName i s.

End Dn.

Arguments toString src : simpl never.

(** ** The loops, read as recursion on the lists they walk

    These three functions are what the index loops of [findMatchedAttribute],
    [compareRelativeDistinguishedName] and [compareDistinguishedName] compute;
    the lemmas [findMatchedAttribute_scan], [compareRelativeDistinguishedName_greedy]
    and [compareDistinguishedName_positional] prove it.  None of them checks a
    bound. *)

Section Characterisations.
Context `{Unicode} `{LdapStrPrep}.

(** Scan [r] for the first attribute equal to [atv]; answer [r] without it. *)
Fixpoint scan (atv : attribute) (r : rdnSET) : result (bool * rdnSET) :=
  match r with
  | [] => Ok (false, [])
  | y :: r' =>
      let* isFound := compareAttribute atv y in
      if isFound then Ok (true, r')
      else
        let* (found, rest) := scan atv r' in
        Ok (found, y :: rest)
  end.

(** Greedy consume-on-match pairing of [xr] against the working copy. *)
Fixpoint greedy (xr rest : rdnSET) : result bool :=
  match xr with
  | [] => Ok true
  | x :: xr' =>
      let* (found, rest') := scan x rest in
      if found then greedy xr' rest' else Ok false
  end.

(** Pairwise comparison by position, stopping at the first position that
    is not a match. *)
Fixpoint positional (xd yd : dn) : result bool :=
  match xd, yd with
  | x :: xd', y :: yd' =>
      let* isMatched := compareRelativeDistinguishedName x y in
      if isMatched then positional xd' yd' else Ok false
  | _, _ => Ok true
  end.

(** Two RDNs match: [compareRelativeDistinguishedName] answers
    [(true, nil)]. *)
Definition matched (x y : rdnSET) : Prop :=
  compareRelativeDistinguishedName x y = Ok true.

End Characterisations.

(** ** Attributes as the decoder makes them *)

(** The tag number in the identifier octet that an encoding begins with. *)
Definition leadingTag (fb : bytes) : Z :=
  match fb with
  | c :: _ => Z.land (u8 c) 0x1f
  | [] => 0
  end.

(** [asn1.RawValue] keeps the tag twice: in [Tag] and in the identifier octet
    of [FullBytes].  In a value that [encoding/asn1] has decoded the two
    agree (the tag numbers below 31 are held in that octet); a value put
    together by hand, as some of [dn_test.go] are, may break this. *)
Definition asDecoded (a : attribute) : bool :=
  match asn1.FullBytes (RawValue a) with
  | c :: _ =>
      (Z.land (u8 c) 0x1f =? 0x1f)
      || (asn1.Tag (RawValue a) =? Z.land (u8 c) 0x1f)
  | [] => true
  end.

(** ** The equivalence that the comparator decides

    On attributes as decoded, whenever it does not fail, [compareAttribute]
    compares a [key]: the type identifier together with the case-folded text
    (domain component), the prepared text (directory strings) or the raw
    encoding (anything else).  [clean] says that no comparison of the
    attribute with another one of its own type can fail. *)

Definition isASCII (c : byte) : bool := u8 c <? utf8.RuneSelf.

(** Lower-casing of the letters A..Z. *)
Definition foldZ (z : Z) : Z :=
  if (65 <=? z) && (z <=? 90) then z + 32 else z.

Definition foldASCII (c : byte) : Z := foldZ (u8 c).

(** The test of one step of the ASCII loop of [strings.EqualFold]. *)
Definition foldStep (sr tr : Z) : bool :=
  if tr =? sr then true
  else
    let lo := if tr <? sr then tr else sr in
    let hi := if tr <? sr then sr else tr in
    (65 <=? lo) && (lo <=? 90) && (hi =? lo + 97 - 65).

(** [P] holds of 0, 1, ..., n-1. *)
Fixpoint all_below (P : Z -> bool) (n : nat) : bool :=
  match n with
  | O => true
  | S m => P (Z.of_nat m) && all_below P m
  end.

Section Key.
Context `{Unicode} `{LdapStrPrep}.

Definition isDirectoryStringTag (tg : Z) : bool :=
  (tg =? asn1.TagUTF8String) || (tg =? asn1.TagPrintableString).

Definition clean (a : attribute) : bool :=
  match toString (asn1.FullBytes (RawValue a)) with
  | Ok s =>
      if asn1.ObjectIdentifier_Equal (Oid a) oidDomainComponent then
        asn1.Tag (RawValue a) =? asn1.TagIA5String
      else if isDirectoryStringTag (asn1.Tag (RawValue a)) then
        match snd (stringPrepare s) with
        | None => true
        | Some _ => false
        end
      else true
  | _ => false
  end.

Definition key (a : attribute) : asn1.ObjectIdentifier * (Z * list Z) :=
  match toString (asn1.FullBytes (RawValue a)) with
  | Ok s =>
      if asn1.ObjectIdentifier_Equal (Oid a) oidDomainComponent then
        (Oid a, (0, map foldASCII s))
      else if isDirectoryStringTag (asn1.Tag (RawValue a)) then
        (Oid a, (1, map u8 (utf8.string_of_runes (fst (stringPrepare s)))))
      else (Oid a, (2, map u8 (asn1.FullBytes (RawValue a))))
  | _ => (Oid a, (3, []))
  end.

Definition key_eqb (k1 k2 : asn1.ObjectIdentifier * (Z * list Z)) : bool :=
  if list_eq_dec Z.eq_dec (fst k1) (fst k2) then
    if Z.eq_dec (fst (snd k1)) (fst (snd k2)) then
      if list_eq_dec Z.eq_dec (snd (snd k1)) (snd (snd k2)) then true
      else false
    else false
  else false.

(** Every attribute of the RDN is clean. *)
Definition cleanRDN (r : rdnSET) : Prop := Forall (fun a => clean a = true) r.

End Key.

(** Every attribute of the RDN, of the DN, is as decoded. *)
Definition decodedRDN (r : rdnSET) : Prop :=
  Forall (fun a => asDecoded a = true) r.

Definition decodedDN (d : dn) : Prop := Forall decodedRDN d.

(** ** Kinds of outcome *)

(** The errors that [encoding/asn1] makes. *)
Definition asn1_error (e : error) : bool :=
  match e with
  | SyntaxError _ | StructuralError _ | Asn1Error _ => true
  | _ => false
  end.

(** The errors of decoding: those of [encoding/asn1] and the two
    trailing-data errors of [parseDn] and [toString]. *)
Definition decode_error (e : error) : bool :=
  match e with
  | DnTrailingDataError | StringTrailingDataError => true
  | _ => asn1_error e
  end.

(** Every error that [r] can be satisfies [P]. *)
Definition errs_in {A} (P : error -> bool) (r : result A) : Prop :=
  match r with
  | Err e => P e = true
  | _ => True
  end.

(** Every error but the one of [removeAttribute]. *)
Definition not_bounds_error (e : error) : bool :=
  match e with
  | BoundsError => false
  | _ => true
  end.

Definition no_panic {A} (r : result A) : Prop :=
  match r with
  | Panic => False
  | _ => True
  end.

(** ** Instances of the collaborators for ASCII text

    Every general statement below holds for any instance of [Unicode] and
    [LdapStrPrep].  To run the comparison on the byte strings of
    [dn_test.go], which hold ASCII text only, the two interfaces are
    instantiated here.  These instances are not the libraries.  On ASCII
    text [strings.EqualFold] never reaches its label [hasUnicode], so the
    first is never called; the second lower-cases A..Z, prohibits nothing and
    handles insignificant spaces as RFC 4518, section 2.6.1 says (one space
    at each end, two for every inner run), which is what [Test_stringPrepare]
    expects of the library on such text. *)

Module Ascii.

#[export] Instance unicode : Unicode :=
  {| EqualFold_hasUnicode := fun s t => bytes_eqb s t |}.

Definition toLower (r : rune) : rune :=
  if (65 <=? r) && (r <=? 90) then r + 32 else r.

Fixpoint dropSpaces (u : list rune) : list rune :=
  match u with
  | c :: u' => if c =? 32 then dropSpaces u' else u
  | [] => []
  end.

Fixpoint insignificant (u : list rune) (pending : bool) : list rune :=
  match u with
  | [] => [32]
  | c :: u' =>
      if c =? 32 then insignificant u' true
      else (if pending then [32; 32] else []) ++ c :: insignificant u' false
  end.

#[export] Instance prep : LdapStrPrep :=
  {| Transcode := map u8;
     MapCharacters := fun u _ => map toLower u;
     Normalize := fun u => u;
     IsProhibited := fun _ => (false, None);
     ApplyInsignificantSpaceHandling :=
       fun u => 32 :: insignificant (dropSpaces u) false |}.

End Ascii.

(** ** The values of dn_test.go *)

Module DnTest.

Definition oidCountry : asn1.ObjectIdentifier := [2; 5; 4; 6].
Definition oidOrganization : asn1.ObjectIdentifier := [2; 5; 4; 10].
Definition oidLocality : asn1.ObjectIdentifier := [2; 5; 4; 7].

(** [attribute{Oid: oid, RawValue: asn1.RawValue{Tag: tag, FullBytes: fb}}] *)
Definition atv (oid : asn1.ObjectIdentifier) (tag : Z) (fb : string)
  : attribute :=
  mkAttribute oid (asn1.mkRawValue 0 tag false [] (hex.DecodeString fb)).

Definition brokenAtv :=
  atv oidOrganization asn1.TagPrintableString "13024A504A504A504A50".
Definition wrongDcAtv :=
  atv oidDomainComponent asn1.TagPrintableString "13024A50".
Definition ia5Atv := atv oidDomainComponent asn1.TagIA5String "1603616263".
Definition pAtv := atv oidOrganization asn1.TagPrintableString "1303616263".
Definition utf8Atv := atv oidOrganization asn1.TagUTF8String "0C03616263".
Definition bmpAtv :=
  atv oidOrganization asn1.TagBMPString "1E06006100620063".
Definition pdAtv := atv oidOrganization asn1.TagPrintableString "1303616264".

(** C=JP, O=BAR + O=FOO, CN=ABC *)
Definition dn1b : bytes := hex.DecodeString
  "3035310b3009060355040613024a503118300a060355040a0c03424152300a060355040a0c03464f4f310c300a06035504030c03414243".
(** [dn1b] followed by three bytes 0x11 *)
Definition brdnb : bytes := hex.DecodeString
  "3035310b3009060355040613024a503118300a060355040a0c03424152300a060355040a0c03464f4f310c300a06035504030c034142431111111".
(** C=JP, CN=ABC (UTF8String) *)
Definition dn2b : bytes := hex.DecodeString
  "301b310b3009060355040613024a50310c300a06035504030c03414243".
(** C=JP, CN=ABC (PrintableString) *)
Definition dn3b : bytes := hex.DecodeString
  "301b310b3009060355040613024a50310c300a06035504031303414243".
(** C=JP, CN=abc (UTF8String) *)
Definition dn4b : bytes := hex.DecodeString
  "301b310b3009060355040613024a50310c300a06035504030c03616263".
(** C=JP, CN=ABC (BMPString) *)
Definition dn5b : bytes := hex.DecodeString
  "301e310b3009060355040613024a50310f300d06035504031e06004100420043".
(** C=US, CN=DEF *)
Definition dn6b : bytes := hex.DecodeString
  "301b310b3009060355040613025553310c300a06035504030c03444546".
(** C=JP, DC=com (IA5String), DC=example (PrintableString), CN=abc *)
Definition dn7b : bytes := hex.DecodeString
  "3049310b3009060355040613024a5031133011060a0992268993f22c6401191603636f6d31173015060a0992268993f22c64011913076578616d706c65310c300a06035504030c03616263".
(** C=JP, O=FOO (BMPString), CN=ABC *)
Definition dn8b : bytes := hex.DecodeString
  "302c310b3009060355040613024a50310f300d060355040a1e060046004f004f310c300a06035504030c03414243".

(** Values that are not in dn_test.go. *)

(** DC=example, DC=EXAMPLE and DC=example followed by a space, IA5String *)
Definition dcExample :=
  atv oidDomainComponent asn1.TagIA5String "16076578616d706c65".
Definition dcEXAMPLE :=
  atv oidDomainComponent asn1.TagIA5String "16074558414d504c45".
Definition dcExampleSpace :=
  atv oidDomainComponent asn1.TagIA5String "16086578616d706c6520".
(** The DN with the one attribute O = INTEGER 5 *)
Definition intDnb : bytes := hex.DecodeString "300c310a3008060355040a020105".

(** An attribute as [parseDn] returns it: [Bytes] is filled in. *)
Definition decodedAtv (oid : asn1.ObjectIdentifier) (tag : Z)
    (inner fb : string) : attribute :=
  mkAttribute oid
    (asn1.mkRawValue 0 tag false (hex.DecodeString inner)
       (hex.DecodeString fb)).

(** The attributes of [dn1b]: C=JP, O=BAR, O=FOO, CN=ABC. *)
Definition cJP :=
  decodedAtv oidCountry asn1.TagPrintableString "4a50" "13024a50".
Definition oBAR :=
  decodedAtv oidOrganization asn1.TagUTF8String "424152" "0c03424152".
Definition oFOO :=
  decodedAtv oidOrganization asn1.TagUTF8String "464f4f" "0c03464f4f".
Definition cnABC := decodedAtv [2; 5; 4; 3] asn1.TagUTF8String "414243" "0c03414243".
(** O=abc (PrintableString) and O = INTEGER 5 *)
Definition oAbc :=
  decodedAtv oidOrganization asn1.TagPrintableString "616263" "1303616263".
Definition oInt := decodedAtv oidOrganization 2 "05" "020105".

(** [dn1b] with O=FOO before O=BAR: C=JP, O=FOO + O=BAR, CN=ABC *)
Definition dn1swapped : bytes := hex.DecodeString
  "3035310b3009060355040613024a503118300a060355040a0c03464f4f300a060355040a0c03424152310c300a06035504030c03414243".
(** The DN with the one RDN O=abc + C=JP *)
Definition abcJPb : bytes := hex.DecodeString
  "30193117300a060355040a13036162633009060355040613024a50".
(** The DN with the one RDN O=abc + O=INTEGER 5, and the same with the two
    attributes in the other order *)
Definition abcIntb : bytes := hex.DecodeString
  "30183116300a060355040a13036162633008060355040a020105".
Definition intAbcb : bytes := hex.DecodeString
  "301831163008060355040a020105300a060355040a1303616263".

End DnTest.




(** The bytes are one element and nothing more: a header, then as many
    bytes of contents as the header says. *)
Definition oneElement (fb : bytes) : Prop :=
  exists t off, asn1.parseTagAndLength fb 0 = Ok (t, off)
    /\ 0 <= asn1.length t
    /\ (off + Z.to_nat (asn1.length t))%nat = List.length fb.

(** The errors that a comparison of two attributes can end in. *)
Definition attribute_error (e : error) : bool :=
  match e with
  | EmptyIssuerError | BoundsError | DnTrailingDataError => false
  | _ => true
  end.

(** The errors that [Compare] can end in after the test of the issuer. *)
Definition comparison_error (e : error) : bool :=
  match e with
  | EmptyIssuerError | BoundsError => false
  | _ => true
  end.



(** * Properties *)

Lemma bind_Ok {A B} (r : result A) (k : A -> result B) (b : B) :
  bind r k = Ok b -> exists a, r = Ok a /\ k a = Ok b.
Proof. destruct r; simpl; intros E; try discriminate. eauto. Qed.

Lemma bytes_eqb_eq (x y : bytes) : bytes_eqb x y = true <-> x = y.
Proof.
  unfold bytes_eqb. destruct (list_eq_dec Byte.byte_eq_dec x y); split;
    intros; congruence.
Qed.

Lemma bytes_eqb_refl (x : bytes) : bytes_eqb x x = true.
Proof. apply bytes_eqb_eq. reflexivity. Qed.

Lemma ObjectIdentifier_Equal_eq (a b : asn1.ObjectIdentifier) :
  asn1.ObjectIdentifier_Equal a b = true <-> a = b.
Proof.
  unfold asn1.ObjectIdentifier_Equal.
  destruct (list_eq_dec Z.eq_dec a b); split; intros; congruence.
Qed.


(** ** Which errors the decoder makes *)

Lemma errs_in_bind {A B} (P : error -> bool) (r : result A)
    (k : A -> result B) :
  errs_in P r -> (forall a, errs_in P (k a)) -> errs_in P (bind r k).
Proof. destruct r; simpl; auto. Qed.

Lemma errs_in_weaken {A} (P Q : error -> bool) (r : result A) :
  (forall e, P e = true -> Q e = true) -> errs_in P r -> errs_in Q r.
Proof. destruct r; simpl; auto. Qed.

Ltac errs_step :=
  match goal with
  | |- errs_in _ (bind _ _) => apply errs_in_bind; [|intros]
  | |- errs_in _ (Ok _) => exact I
  | |- errs_in _ (Err _) => reflexivity
  | |- errs_in _ Panic => exact I
  | |- errs_in _ (if ?c then _ else _) => destruct c
  | |- errs_in _ (match ?x with _ => _ end) => destruct x
  end.

Ltac errs := repeat errs_step; auto.

Module asn1_errors.
Import asn1 asn1_dn.

Lemma parseBase128Int_loop_errs b k acc o :
  errs_in asn1_error (parseBase128Int_loop b k acc o).
Proof.
  revert acc o. induction k as [|k IH]; intros acc o; simpl; errs.
Qed.

Lemma parseLength_loop_errs b n acc o :
  errs_in asn1_error (parseLength_loop b n acc o).
Proof.
  revert acc o. induction n as [|n IH]; intros acc o; simpl; errs.
Qed.

Lemma parseTagAndLength_errs b o :
  errs_in asn1_error (parseTagAndLength b o).
Proof.
  unfold parseTagAndLength, parseBase128Int.
  pose proof parseBase128Int_loop_errs. pose proof parseLength_loop_errs.
  errs.
Qed.

Lemma parseObjectIdentifier_loop_errs b fuel o :
  errs_in asn1_error (parseObjectIdentifier_loop b fuel o).
Proof.
  revert o. induction fuel as [|fuel IH]; intros o; simpl.
  - errs.
  - pose proof parseBase128Int_loop_errs. unfold parseBase128Int. errs.
Qed.

Lemma parseObjectIdentifier_errs b :
  errs_in asn1_error (parseObjectIdentifier b).
Proof.
  unfold parseObjectIdentifier, parseBase128Int.
  pose proof parseBase128Int_loop_errs.
  pose proof parseObjectIdentifier_loop_errs. errs.
Qed.

Lemma parseFieldHeader_errs b o matchAny expectedTag compoundType :
  errs_in asn1_error (parseFieldHeader b o matchAny expectedTag compoundType).
Proof.
  unfold parseFieldHeader. pose proof parseTagAndLength_errs. errs.
Qed.

Lemma parseField_string_errs b o :
  errs_in asn1_error (parseField_string b o).
Proof.
  unfold parseField_string, parsePrintableString, parseNumericString,
    parseIA5String, parseT61String, parseUTF8String, parseBMPString.
  pose proof parseFieldHeader_errs. errs.
Qed.

Lemma parseField_ObjectIdentifier_errs b o :
  errs_in asn1_error (parseField_ObjectIdentifier b o).
Proof.
  unfold parseField_ObjectIdentifier.
  pose proof parseFieldHeader_errs. pose proof parseObjectIdentifier_errs.
  errs.
Qed.

Lemma parseField_RawValue_errs b o :
  errs_in asn1_error (parseField_RawValue b o).
Proof.
  unfold parseField_RawValue. pose proof parseFieldHeader_errs. errs.
Qed.

Lemma parseSequenceOf_count_errs b fuel tg cmp o n :
  errs_in asn1_error (parseSequenceOf_count b fuel tg cmp o n).
Proof.
  revert o n. induction fuel as [|fuel IH]; intros o n; simpl.
  - errs.
  - pose proof parseTagAndLength_errs. errs.
Qed.

Lemma parseSequenceOf_fill_errs {A} (parseElem : bytes -> nat -> result (A * nat))
    b n o :
  (forall b o, errs_in asn1_error (parseElem b o)) ->
  errs_in asn1_error (parseSequenceOf_fill parseElem b n o).
Proof.
  intros HE. revert o. induction n as [|n IH]; intros o; simpl; errs.
Qed.

Lemma parseSequenceOf_errs {A} (parseElem : bytes -> nat -> result (A * nat))
    tg cmp b :
  (forall b o, errs_in asn1_error (parseElem b o)) ->
  errs_in asn1_error (parseSequenceOf parseElem tg cmp b).
Proof.
  intros HE. unfold parseSequenceOf.
  pose proof parseSequenceOf_count_errs.
  pose proof (fun b n o => parseSequenceOf_fill_errs parseElem b n o HE).
  errs.
Qed.

Lemma parseField_attribute_errs b o :
  errs_in asn1_error (parseField_attribute b o).
Proof.
  unfold parseField_attribute.
  pose proof parseFieldHeader_errs. pose proof parseField_RawValue_errs.
  pose proof parseField_ObjectIdentifier_errs. errs.
Qed.

Lemma parseField_rdnSET_errs b o :
  errs_in asn1_error (parseField_rdnSET b o).
Proof.
  unfold parseField_rdnSET. pose proof parseFieldHeader_errs.
  pose proof (fun tg cmp b =>
    parseSequenceOf_errs parseField_attribute tg cmp b
      parseField_attribute_errs).
  errs.
Qed.

Lemma parseField_dn_errs b o :
  errs_in asn1_error (parseField_dn b o).
Proof.
  unfold parseField_dn. pose proof parseFieldHeader_errs.
  pose proof (fun tg cmp b =>
    parseSequenceOf_errs parseField_rdnSET tg cmp b parseField_rdnSET_errs).
  errs.
Qed.

End asn1_errors.

Lemma toString_errs (src : bytes) : errs_in decode_error (toString src).
Proof.
  unfold toString, asn1_dn.Unmarshal.
  pose proof (asn1_errors.parseField_string_errs src 0) as E.
  destruct (asn1.parseField_string src 0) as [[s o]|e|]; simpl in *; auto.
  - destruct (negb _); simpl; auto.
  - destruct e; simpl in *; auto.
Qed.

Lemma parseDn_errs (dnBytes : bytes) : errs_in decode_error (parseDn dnBytes).
Proof.
  unfold parseDn, asn1_dn.Unmarshal.
  pose proof (asn1_errors.parseField_dn_errs dnBytes 0) as E.
  destruct (asn1_dn.parseField_dn dnBytes 0) as [[s o]|e|]; simpl in *; auto.
  - destruct (negb _); simpl; auto.
  - destruct e; simpl in *; auto.
Qed.

(** ** The decoder never runs out of its iteration budget *)

Lemma no_panic_bind {A B} (r : result A) (k : A -> result B) :
  no_panic r -> (forall a, r = Ok a -> no_panic (k a)) -> no_panic (bind r k).
Proof. destruct r; simpl; auto. Qed.

Ltac np_step :=
  match goal with
  | |- no_panic (bind _ _) => apply no_panic_bind; [|intros]
  | |- no_panic (Ok _) => exact I
  | |- no_panic (Err _) => exact I
  | |- no_panic (if ?c then _ else _) => destruct c
  | |- no_panic (match ?x with _ => _ end) => destruct x eqn:?
  end.

Ltac np := repeat np_step; auto.

Module asn1_total.
Import asn1 asn1_dn.

Lemma parseBase128Int_loop_no_panic b k acc o :
  no_panic (parseBase128Int_loop b k acc o).
Proof. revert acc o. induction k; intros; simpl; np. Qed.

Lemma parseBase128Int_loop_progress b k acc o v o' :
  parseBase128Int_loop b k acc o = Ok (v, o') -> (o < o')%nat.
Proof.
  revert acc o. induction k as [|k IH]; intros acc o; simpl.
  - destruct (at_ b o); discriminate.
  - destruct (at_ b o); [|discriminate].
    destruct (_ && _); [discriminate|].
    destruct (_ =? 0).
    + destruct (_ >? _); [discriminate|]. intros E. inversion E. lia.
    + intros E. apply IH in E. lia.
Qed.

Lemma parseLength_loop_no_panic b n acc o :
  no_panic (parseLength_loop b n acc o).
Proof. revert acc o. induction n; intros; simpl; np. Qed.

Lemma parseLength_loop_progress b n acc o v o' :
  parseLength_loop b n acc o = Ok (v, o') -> (o <= o')%nat.
Proof.
  revert acc o. induction n as [|n IH]; intros acc o; simpl.
  - intros E. inversion E. lia.
  - destruct (at_ b o); [|discriminate].
    destruct (_ >=? _); [discriminate|].
    destruct (_ =? 0); [discriminate|].
    intros E. apply IH in E. lia.
Qed.

Lemma parseTagAndLength_no_panic b o : no_panic (parseTagAndLength b o).
Proof.
  unfold parseTagAndLength, parseBase128Int.
  pose proof parseBase128Int_loop_no_panic.
  pose proof parseLength_loop_no_panic. np.
Qed.

Lemma parseTagAndLength_progress b o t o' :
  parseTagAndLength b o = Ok (t, o') -> (o < o')%nat.
Proof.
  unfold parseTagAndLength, parseBase128Int.
  destruct (at_ b o); [|discriminate].
  intros E. apply bind_Ok in E. destruct E as ([tg o1] & E1 & E2).
  assert (o < o1)%nat as Ho1.
  { destruct (_ =? 31).
    - apply bind_Ok in E1. destruct E1 as ([tg' o2] & E1 & E3).
      apply parseBase128Int_loop_progress in E1.
      destruct (tg' <? 31); [discriminate|]. inversion E3; subst. lia.
    - inversion E1. lia. }
  destruct (at_ b o1); [|discriminate].
  destruct (_ =? 0).
  - inversion E2. lia.
  - destruct (_ =? 0); [discriminate|].
    apply bind_Ok in E2. destruct E2 as ([len o2] & E2 & E3).
    apply parseLength_loop_progress in E2.
    destruct (len <? 128); [discriminate|]. inversion E3; subst. lia.
Qed.

Lemma at_Some_lt (b : bytes) (o : nat) (c : byte) :
  at_ b o = Some c -> (o < List.length b)%nat.
Proof. intros E. apply nth_error_Some. unfold at_ in E. congruence. Qed.

Lemma parseObjectIdentifier_loop_no_panic b fuel o :
  (List.length b - o <= fuel)%nat ->
  no_panic (parseObjectIdentifier_loop b fuel o).
Proof.
  revert o. induction fuel as [|fuel IH]; intros o Hf; simpl.
  - destruct (at_ b o) eqn:E; [|exact I]. apply at_Some_lt in E. lia.
  - destruct (at_ b o) eqn:E; [|exact I]. apply at_Some_lt in E.
    apply no_panic_bind; [apply parseBase128Int_loop_no_panic|].
    intros [v o'] E1. apply parseBase128Int_loop_progress in E1.
    apply no_panic_bind; [apply IH; lia|]. intros; exact I.
Qed.

Lemma parseObjectIdentifier_no_panic b : no_panic (parseObjectIdentifier b).
Proof.
  unfold parseObjectIdentifier. destruct b as [|c b]; [exact I|].
  apply no_panic_bind; [apply parseBase128Int_loop_no_panic|].
  intros [v o] E.
  apply no_panic_bind; [apply parseObjectIdentifier_loop_no_panic; lia|].
  intros. np.
Qed.

Lemma parseFieldHeader_no_panic b o matchAny expectedTag compoundType :
  no_panic (parseFieldHeader b o matchAny expectedTag compoundType).
Proof.
  unfold parseFieldHeader. pose proof parseTagAndLength_no_panic. np.
Qed.

Lemma parseField_string_no_panic b o : no_panic (parseField_string b o).
Proof.
  unfold parseField_string, parsePrintableString, parseNumericString,
    parseIA5String, parseT61String, parseUTF8String, parseBMPString.
  pose proof parseFieldHeader_no_panic. np.
Qed.

Lemma parseField_ObjectIdentifier_no_panic b o :
  no_panic (parseField_ObjectIdentifier b o).
Proof.
  unfold parseField_ObjectIdentifier.
  pose proof parseFieldHeader_no_panic.
  pose proof parseObjectIdentifier_no_panic. np.
Qed.

Lemma parseField_RawValue_no_panic b o : no_panic (parseField_RawValue b o).
Proof.
  unfold parseField_RawValue. pose proof parseFieldHeader_no_panic. np.
Qed.

Lemma parseSequenceOf_count_no_panic b fuel tg cmp o n :
  (List.length b - o <= fuel)%nat ->
  no_panic (parseSequenceOf_count b fuel tg cmp o n).
Proof.
  revert o n. induction fuel as [|fuel IH]; intros o n Hf; simpl.
  - destruct (at_ b o) eqn:E; [|exact I]. apply at_Some_lt in E. lia.
  - destruct (at_ b o) eqn:E; [|exact I]. apply at_Some_lt in E.
    apply no_panic_bind; [apply parseTagAndLength_no_panic|].
    intros [t o'] E1. apply parseTagAndLength_progress in E1.
    destruct (_ || _); [exact I|]. destruct (invalidLength _ _ _); [exact I|].
    apply IH. lia.
Qed.

Lemma parseSequenceOf_fill_no_panic {A}
    (parseElem : bytes -> nat -> result (A * nat)) b n o :
  (forall b o, no_panic (parseElem b o)) ->
  no_panic (parseSequenceOf_fill parseElem b n o).
Proof.
  intros HE. revert o. induction n as [|n IH]; intros o; simpl; np.
Qed.

Lemma parseSequenceOf_no_panic {A}
    (parseElem : bytes -> nat -> result (A * nat)) tg cmp b :
  (forall b o, no_panic (parseElem b o)) ->
  no_panic (parseSequenceOf parseElem tg cmp b).
Proof.
  intros HE. unfold parseSequenceOf.
  apply no_panic_bind; [apply parseSequenceOf_count_no_panic; lia|].
  intros. apply parseSequenceOf_fill_no_panic, HE.
Qed.

Lemma parseField_attribute_no_panic b o : no_panic (parseField_attribute b o).
Proof.
  unfold parseField_attribute.
  pose proof parseFieldHeader_no_panic.
  pose proof parseField_RawValue_no_panic.
  pose proof parseField_ObjectIdentifier_no_panic. np.
Qed.

Lemma parseField_rdnSET_no_panic b o : no_panic (parseField_rdnSET b o).
Proof.
  unfold parseField_rdnSET. pose proof parseFieldHeader_no_panic.
  pose proof (fun tg cmp b =>
    parseSequenceOf_no_panic parseField_attribute tg cmp b
      parseField_attribute_no_panic).
  np.
Qed.

Lemma parseField_dn_no_panic b o : no_panic (parseField_dn b o).
Proof.
  unfold parseField_dn. pose proof parseFieldHeader_no_panic.
  pose proof (fun tg cmp b =>
    parseSequenceOf_no_panic parseField_rdnSET tg cmp b
      parseField_rdnSET_no_panic).
  np.
Qed.

End asn1_total.

Lemma toString_no_panic (src : bytes) : no_panic (toString src).
Proof.
  unfold toString, asn1_dn.Unmarshal.
  pose proof (asn1_total.parseField_string_no_panic src 0) as E.
  destruct (asn1.parseField_string src 0) as [[s o]|e|]; simpl in *; auto.
  destruct (negb _); exact I.
Qed.

Lemma parseDn_no_panic (dnBytes : bytes) : no_panic (parseDn dnBytes).
Proof.
  unfold parseDn, asn1_dn.Unmarshal.
  pose proof (asn1_total.parseField_dn_no_panic dnBytes 0) as E.
  destruct (asn1_dn.parseField_dn dnBytes 0) as [[s o]|e|]; simpl in *; auto.
  destruct (negb _); exact I.
Qed.

(** ** Bytes after a complete encoding *)

Module asn1_extend.
Import asn1 asn1_dn.





Lemma invalidLength_false (offset : nat) (len : Z) (n : nat) :
  invalidLength offset len n = false ->
  0 <= len /\ (offset + Z.to_nat len <= n)%nat.
Proof.
  unfold invalidLength. intros E. apply orb_false_elim in E.
  destruct E as [E1 E2].
  apply Z.ltb_ge in E1. rewrite Z.gtb_ltb in E2. apply Z.ltb_ge in E2. lia.
Qed.

(** A header that [parseFieldHeader] accepts ends inside the input. *)
Lemma parseFieldHeader_bound b o matchAny expectedTag compoundType t inner o' :
  parseFieldHeader b o matchAny expectedTag compoundType = Ok (t, inner, o') ->
  (o < o' <= List.length b)%nat /\ inner = slice b (o' - Z.to_nat (length t)) o'.
Proof.
  unfold parseFieldHeader. destruct (Nat.eqb _ _); [discriminate|].
  intros E. apply bind_Ok in E. destruct E as ([t' o1] & E1 & E2).
  apply asn1_total.parseTagAndLength_progress in E1.
  destruct (_ || _); [discriminate|].
  destruct (invalidLength _ _ _) eqn:EI; [discriminate|].
  apply invalidLength_false in EI. inversion E2; subst.
  split; [lia|]. f_equal. lia.
Qed.







End asn1_extend.


Lemma length_zero_nil {A} (l : list A) :
  Nat.eqb (List.length l) 0 = false <-> l <> [].
Proof. destruct l; simpl; split; congruence. Qed.



(** ** What the decoder puts into an attribute *)

Module asn1_shape.
Import asn1 asn1_dn.

Lemma parseTagAndLength_tag b o t o1 :
  parseTagAndLength b o = Ok (t, o1) ->
  exists c, at_ b o = Some c
    /\ class t = Z.shiftr (u8 c) 6
    /\ (if Z.land (u8 c) 0x1f =? 0x1f then 0x1f <= tag t
        else tag t = Z.land (u8 c) 0x1f).
Proof.
  unfold parseTagAndLength.
  destruct (at_ b o) as [c|]; [|discriminate].
  intros E. exists c. split; [reflexivity|].
  apply bind_Ok in E. destruct E as ([tg o2] & E1 & E2).
  assert (class t = Z.shiftr (u8 c) 6 /\ tag t = tg) as [Hc Ht].
  { destruct (at_ b o2); [|discriminate].
    destruct (_ =? 0).
    - inversion E2; subst. simpl. auto.
    - destruct (_ =? 0); [discriminate|].
      apply bind_Ok in E2. destruct E2 as ([len o3] & _ & E3).
      destruct (len <? 128); [discriminate|]. inversion E3; subst. simpl. auto. }
  split; [exact Hc|]. rewrite Ht.
  destruct (Z.land (u8 c) 31 =? 31).
  - apply bind_Ok in E1. destruct E1 as ([tg' o3] & _ & E3).
    destruct (Z.ltb_spec tg' 31); [discriminate|]. inversion E3; subst. lia.
  - inversion E1; subst. reflexivity.
Qed.

Lemma slice_head (b : bytes) (o o' : nat) (c : byte) :
  at_ b o = Some c -> (o < o')%nat ->
  exists rest, slice b o o' = c :: rest.
Proof.
  unfold at_, slice. intros E Ho.
  destruct (nth_error_split b o E) as (l1 & l2 & -> & <-).
  rewrite skipn_app, skipn_all, Nat.sub_diag. simpl.
  destruct (o' - List.length l1)%nat eqn:En; [lia|]. simpl. eauto.
Qed.

Lemma parseField_RawValue_asDecoded b o raw o' oid :
  parseField_RawValue b o = Ok (raw, o') ->
  asDecoded (mkAttribute oid raw) = true.
Proof.
  unfold parseField_RawValue. intros E.
  apply bind_Ok in E. destruct E as ([[t inner] o1] & E1 & E2).
  inversion E2; subst. clear E2.
  pose proof (asn1_extend.parseFieldHeader_bound _ _ _ _ _ _ _ _ E1) as [Hb _].
  unfold parseFieldHeader in E1.
  destruct (Nat.eqb _ _); [discriminate|].
  apply bind_Ok in E1. destruct E1 as ([t' o2] & E1 & E2).
  apply parseTagAndLength_tag in E1. destruct E1 as (c & Ec & _ & Ht).
  destruct (_ || _); [discriminate|].
  destruct (invalidLength _ _ _); [discriminate|]. inversion E2; subst.
  destruct (slice_head b o (o2 + Z.to_nat (length t)) c Ec) as (rest & Hs);
    [lia|].
  unfold asDecoded. simpl. rewrite Hs.
  destruct (Z.land (u8 c) 31 =? 31); [reflexivity|].
  rewrite Ht, Z.eqb_refl. reflexivity.
Qed.

Lemma parseField_attribute_asDecoded b o a o' :
  parseField_attribute b o = Ok (a, o') -> asDecoded a = true.
Proof.
  unfold parseField_attribute. intros E.
  apply bind_Ok in E. destruct E as ([[t inner] o1] & _ & E).
  apply bind_Ok in E. destruct E as ([oid o2] & _ & E).
  apply bind_Ok in E. destruct E as ([raw o3] & E & E2).
  inversion E2; subst. eapply parseField_RawValue_asDecoded; eassumption.
Qed.

Lemma parseSequenceOf_fill_Forall {A} (P : A -> Prop)
    (parseElem : bytes -> nat -> result (A * nat)) b n o vs :
  (forall b o v o', parseElem b o = Ok (v, o') -> P v) ->
  parseSequenceOf_fill parseElem b n o = Ok vs -> Forall P vs.
Proof.
  intros HE. revert o vs. induction n as [|n IH]; intros o vs; simpl.
  - intros E. inversion E. constructor.
  - intros E. apply bind_Ok in E. destruct E as ([v o1] & E1 & E).
    apply bind_Ok in E. destruct E as (vs' & E2 & E).
    inversion E; subst. constructor; eauto.
Qed.

Lemma parseSequenceOf_Forall {A} (P : A -> Prop)
    (parseElem : bytes -> nat -> result (A * nat)) tg cmp b vs :
  (forall b o v o', parseElem b o = Ok (v, o') -> P v) ->
  parseSequenceOf parseElem tg cmp b = Ok vs -> Forall P vs.
Proof.
  intros HE. unfold parseSequenceOf. intros E.
  apply bind_Ok in E. destruct E as (n & _ & E).
  eapply parseSequenceOf_fill_Forall; eassumption.
Qed.

Lemma parseField_rdnSET_asDecoded b o r o' :
  parseField_rdnSET b o = Ok (r, o') ->
  Forall (fun a => asDecoded a = true) r.
Proof.
  unfold parseField_rdnSET. intros E.
  apply bind_Ok in E. destruct E as ([[t inner] o1] & _ & E).
  apply bind_Ok in E. destruct E as (v & E & E2). inversion E2; subst.
  eapply parseSequenceOf_Forall; [|eassumption].
  apply parseField_attribute_asDecoded.
Qed.

Lemma parseField_dn_asDecoded b o d o' :
  parseField_dn b o = Ok (d, o') ->
  Forall (Forall (fun a => asDecoded a = true)) d.
Proof.
  unfold parseField_dn. intros E.
  apply bind_Ok in E. destruct E as ([[t inner] o1] & _ & E).
  apply bind_Ok in E. destruct E as (v & E & E2). inversion E2; subst.
  eapply parseSequenceOf_Forall; [|eassumption].
  apply parseField_rdnSET_asDecoded.
Qed.

End asn1_shape.

(** Every attribute of a DN that [parseDn] returns is as decoded. *)
Lemma parseDn_asDecoded (dnBytes : bytes) (d : dn) :
  parseDn dnBytes = Ok d -> Forall (Forall (fun a => asDecoded a = true)) d.
Proof.
  unfold parseDn, asn1_dn.Unmarshal.
  destruct (asn1_dn.parseField_dn dnBytes 0) as [[v o]|e|] eqn:E; simpl;
    try discriminate.
  destruct (negb _); [discriminate|]. intros E'. inversion E'; subst.
  eapply asn1_shape.parseField_dn_asDecoded; eassumption.
Qed.

(** ** What [toString] accepts *)

Lemma toString_leadingTag (fb : bytes) (s : gostring) :
  toString fb = Ok s ->
  exists c rest, fb = c :: rest
    /\ (Z.land (u8 c) 0x1f =? 0x1f) = false
    /\ (Z.land (u8 c) 0x1f = asn1.TagIA5String -> forallb isASCII s = true).
Proof.
  unfold toString, asn1_dn.Unmarshal.
  destruct (asn1.parseField_string fb 0) as [[v o]|e|] eqn:E; simpl;
    try discriminate.
  destruct (negb _); [discriminate|]. intros E'. inversion E'; subst. clear E'.
  unfold asn1.parseField_string in E.
  apply bind_Ok in E. destruct E as ([[t inner] o1] & E1 & E2).
  apply bind_Ok in E2. destruct E2 as (v & E2 & E3). inversion E3; subst.
  unfold asn1.parseFieldHeader in E1.
  destruct (Nat.eqb _ _); [discriminate|].
  apply bind_Ok in E1. destruct E1 as ([t' o2] & E1 & E4).
  apply asn1_shape.parseTagAndLength_tag in E1.
  destruct E1 as (c & Ec & Hcl & Ht).
  destruct fb as [|c' rest]; [discriminate|]. inversion Ec; subst c'.
  exists c, rest. split; [reflexivity|].
  simpl in E4.
  destruct (Z.eqb_spec (asn1.class t') asn1.ClassUniversal) as [Hc|];
    [|discriminate].
  destruct (Z.eqb_spec (asn1.tag t') (asn1.stringUniversalTag t')) as [Hu|];
    [|discriminate].
  simpl in E4. destruct (negb _); [discriminate|].
  destruct (asn1.invalidLength _ _ _); [discriminate|].
  injection E4 as E4t E4i E4o. subst t inner o.
  unfold asn1.stringUniversalTag in *. rewrite Hc in *. simpl in *.
  unfold asn1.TagIA5String, asn1.TagGeneralString, asn1.TagT61String,
    asn1.TagUTF8String, asn1.TagNumericString, asn1.TagBMPString,
    asn1.TagPrintableString in *.
  destruct (Z.land (u8 c) 31 =? 31).
  - exfalso.
    destruct (Z.eqb_spec (asn1.tag t') 22), (Z.eqb_spec (asn1.tag t') 27),
      (Z.eqb_spec (asn1.tag t') 20), (Z.eqb_spec (asn1.tag t') 12),
      (Z.eqb_spec (asn1.tag t') 18), (Z.eqb_spec (asn1.tag t') 30);
      simpl in *; lia.
  - split; [reflexivity|]. intros H22. rewrite <- Ht in H22.
    rewrite H22 in E2. simpl in E2.
    unfold asn1.parseIA5String in E2.
    match type of E2 with
    | (if forallb ?f ?l then _ else _) = _ =>
        destruct (forallb f l) eqn:EF; [|discriminate]
    end.
    inversion E2; subst. exact EF.
Qed.

Lemma asDecoded_Tag (a : attribute) (s : gostring) :
  asDecoded a = true ->
  toString (asn1.FullBytes (RawValue a)) = Ok s ->
  asn1.Tag (RawValue a) = leadingTag (asn1.FullBytes (RawValue a)).
Proof.
  intros Ha Es. apply toString_leadingTag in Es.
  destruct Es as (c & rest & Hfb & Hn & _).
  unfold asDecoded in Ha. rewrite Hfb in *. simpl.
  rewrite Hn in Ha. simpl in Ha. apply Z.eqb_eq in Ha. exact Ha.
Qed.

Lemma asDecoded_IA5_isASCII (a : attribute) (s : gostring) :
  asDecoded a = true ->
  toString (asn1.FullBytes (RawValue a)) = Ok s ->
  asn1.Tag (RawValue a) = asn1.TagIA5String ->
  forallb isASCII s = true.
Proof.
  intros Ha Es Ht. pose proof (asDecoded_Tag _ _ Ha Es) as HT.
  apply toString_leadingTag in Es.
  destruct Es as (c & rest & Hfb & _ & Hs).
  rewrite Hfb in HT. simpl in HT. apply Hs. congruence.
Qed.

(** ** [strings.EqualFold] on ASCII text *)

Lemma all_below_spec (P : Z -> bool) (n : nat) :
  all_below P n = true -> forall z, 0 <= z < Z.of_nat n -> P z = true.
Proof.
  induction n as [|n IH]; simpl; intros E z Hz; [lia|].
  apply andb_prop in E. destruct E as [E1 E2].
  destruct (Z.eq_dec z (Z.of_nat n)) as [->|Hne]; [exact E1|].
  apply IH; [exact E2|lia].
Qed.

Lemma foldStep_ascii (a b : Z) :
  0 <= a < 128 -> 0 <= b < 128 ->
  (Z.lor a b >=? utf8.RuneSelf) = false
  /\ foldStep a b = (foldZ a =? foldZ b).
Proof.
  intros Ha Hb.
  assert (all_below (fun a => all_below (fun b =>
            negb (Z.lor a b >=? utf8.RuneSelf)
            && Bool.eqb (foldStep a b) (foldZ a =? foldZ b)) 128) 128 = true)
    as E by (vm_compute; reflexivity).
  pose proof (all_below_spec _ _ (all_below_spec _ _ E a Ha) b Hb) as E'.
  simpl in E'. apply andb_prop in E'. destruct E' as [E1 E2].
  apply negb_true_iff in E1. apply eqb_prop in E2. auto.
Qed.

Lemma u8_range (c : byte) : 0 <= u8 c < 256.
Proof. destruct c; vm_compute; split; congruence. Qed.

Lemma u8_inj (c d : byte) : u8 c = u8 d -> c = d.
Proof.
  unfold u8. intros E. apply N2Z.inj in E. apply (f_equal Byte.of_N) in E.
  rewrite !Byte.of_to_N in E. congruence.
Qed.

Lemma map_u8_inj (x y : bytes) : map u8 x = map u8 y -> x = y.
Proof.
  revert y. induction x as [|c x IH]; intros [|d y] E; try discriminate;
    [reflexivity|].
  simpl in E. inversion E. f_equal; [apply u8_inj; assumption|auto].
Qed.

Lemma list_eqb_cons (a b : Z) (l l' : list Z) :
  (if list_eq_dec Z.eq_dec (a :: l) (b :: l') then true else false)
  = (a =? b) && (if list_eq_dec Z.eq_dec l l' then true else false).
Proof.
  destruct (Z.eqb_spec a b), (list_eq_dec Z.eq_dec l l'),
    (list_eq_dec Z.eq_dec (a :: l) (b :: l')); simpl; congruence.
Qed.

Section EqualFoldASCII.
Context `{Unicode}.

Lemma EqualFold_ASCII (s t : gostring) :
  forallb isASCII s = true -> forallb isASCII t = true ->
  strings.EqualFold s t
  = if list_eq_dec Z.eq_dec (map foldASCII s) (map foldASCII t) then true
    else false.
Proof.
  revert t. induction s as [|sr s IH]; intros [|tr t] Hs Ht;
    try reflexivity.
  simpl in Hs, Ht. apply andb_prop in Hs, Ht.
  destruct Hs as [Hsr Hs], Ht as [Htr Ht].
  unfold isASCII, utf8.RuneSelf in Hsr, Htr. apply Z.ltb_lt in Hsr, Htr.
  pose proof (u8_range sr). pose proof (u8_range tr).
  destruct (foldStep_ascii (u8 sr) (u8 tr)) as [E1 E2]; [lia|lia|].
  assert (strings.EqualFold (sr :: s) (tr :: t)
          = foldStep (u8 sr) (u8 tr) && strings.EqualFold s t) as ->.
  { simpl. rewrite E1. unfold foldStep.
    destruct (u8 tr =? u8 sr); [reflexivity|].
    destruct (_ && _); reflexivity. }
  simpl map. rewrite list_eqb_cons, E2, (IH t Hs Ht). reflexivity.
Qed.

End EqualFoldASCII.

(** ** UTF-8 encodes valid runes injectively *)

Module utf8_facts.
Import utf8.















End utf8_facts.

(** ** The loops compute the list recursions *)

Section Loops.
Context `{Unicode} `{LdapStrPrep}.

Lemma removeAttribute_in_range (i : nat) (r : rdnSET) :
  (i < List.length r)%nat ->
  removeAttribute (Z.of_nat i) r = Ok (firstn i r ++ skipn (i + 1) r).
Proof.
  intros Hi. unfold removeAttribute.
  destruct (Z.ltb_spec (Z.of_nat i) 0); [lia|].
  destruct (Z.geb_spec (Z.of_nat i) (Z.of_nat (List.length r))); [lia|].
  simpl. rewrite Nat2Z.id. reflexivity.
Qed.

Lemma removeAttribute_middle (pre suf : rdnSET) (y : attribute) :
  removeAttribute (Z.of_nat (List.length pre)) (pre ++ y :: suf)
  = Ok (pre ++ suf).
Proof.
  rewrite removeAttribute_in_range by (rewrite length_app; simpl; lia).
  rewrite firstn_app, Nat.sub_diag, firstn_all. simpl. rewrite app_nil_r.
  rewrite skipn_app, skipn_all2 by lia. simpl.
  replace (List.length pre + 1 - List.length pre)%nat with 1%nat by lia.
  reflexivity.
Qed.

Lemma findMatchedAttribute_loop_scan (atv : attribute) (suf pre : rdnSET) :
  findMatchedAttribute_loop atv (pre ++ suf) (List.length suf) (List.length pre)
  = let* (found, rest) := scan atv suf in Ok (found, pre ++ rest).
Proof.
  revert pre. induction suf as [|y suf IH]; intros pre; simpl.
  - reflexivity.
  - rewrite nth_error_app2, Nat.sub_diag by lia. simpl.
    destruct (compareAttribute atv y) as [[|]|e|]; simpl; try reflexivity.
    + rewrite removeAttribute_middle. reflexivity.
    + specialize (IH (pre ++ [y])).
      rewrite <- app_assoc, length_app in IH. simpl in IH.
      rewrite Nat.add_1_r in IH. rewrite IH.
      destruct (scan atv suf) as [[found rest]|e|]; simpl; try reflexivity.
      rewrite <- app_assoc. reflexivity.
Qed.

Lemma findMatchedAttribute_scan (atv : attribute) (r : rdnSET) :
  findMatchedAttribute atv r = scan atv r.
Proof.
  unfold findMatchedAttribute.
  pose proof (findMatchedAttribute_loop_scan atv r []) as E.
  simpl in E. rewrite E.
  destruct (scan atv r) as [[found rest]|e|]; reflexivity.
Qed.

Lemma compareRelativeDistinguishedName_loop_greedy (suf pre rest : rdnSET) :
  compareRelativeDistinguishedName_loop (pre ++ suf) rest
    (List.length suf) (List.length pre)
  = greedy suf rest.
Proof.
  revert pre rest. induction suf as [|x suf IH]; intros pre rest; simpl.
  - reflexivity.
  - rewrite nth_error_app2, Nat.sub_diag by lia. simpl.
    rewrite findMatchedAttribute_scan.
    destruct (scan x rest) as [[[|] rest']|e|]; simpl; try reflexivity.
    specialize (IH (pre ++ [x]) rest').
    rewrite <- app_assoc, length_app in IH. simpl in IH.
    rewrite Nat.add_1_r in IH. exact IH.
Qed.

Lemma compareRelativeDistinguishedName_greedy (xr yr : rdnSET) :
  compareRelativeDistinguishedName xr yr
  = if Nat.eqb (List.length xr) (List.length yr) then greedy xr yr
    else Ok false.
Proof.
  unfold compareRelativeDistinguishedName.
  destruct (Nat.eqb (List.length xr) (List.length yr)); simpl; [|reflexivity].
  apply (compareRelativeDistinguishedName_loop_greedy xr []).
Qed.

Lemma compareDistinguishedName_loop_positional (xs ys xp yp : dn) :
  List.length xp = List.length yp ->
  List.length xs = List.length ys ->
  compareDistinguishedName_loop (xp ++ xs) (yp ++ ys)
    (List.length xs) (List.length xp)
  = positional xs ys.
Proof.
  revert ys xp yp. induction xs as [|x xs IH]; intros ys xp yp Hp Hs.
  - destruct ys; reflexivity.
  - destruct ys as [|y ys]; [discriminate|]. simpl.
    rewrite nth_error_app2, Nat.sub_diag by lia.
    replace (nth_error (yp ++ y :: ys) (List.length xp)) with (Some y)
      by (rewrite Hp, nth_error_app2, Nat.sub_diag by lia; reflexivity).
    simpl.
    destruct (compareRelativeDistinguishedName x y) as [[|]|e|]; simpl;
      try reflexivity.
    specialize (IH ys (xp ++ [x]) (yp ++ [y])).
    rewrite <- !app_assoc, !length_app in IH. simpl in IH.
    rewrite Nat.add_1_r in IH. apply IH; simpl in *; lia.
Qed.

Lemma compareDistinguishedName_positional (xd yd : dn) :
  compareDistinguishedName xd yd
  = if Nat.eqb (List.length xd) (List.length yd) then positional xd yd
    else Ok false.
Proof.
  unfold compareDistinguishedName.
  destruct (Nat.eqb_spec (List.length xd) (List.length yd)); simpl;
    [|reflexivity].
  apply (compareDistinguishedName_loop_positional xd yd [] []); auto.
Qed.


(** ** The bounds error of [removeAttribute] *)

Lemma decode_not_bounds (e : error) :
  decode_error e = true -> not_bounds_error e = true.
Proof. destruct e; simpl; congruence. Qed.

Lemma stringPrepare_errs (s : gostring) (u : list rune) (e : error) :
  stringPrepare s = (u, Some e) -> not_bounds_error e = true.
Proof.
  unfold stringPrepare.
  destruct (IsProhibited _) as [[|] [msg|]]; simpl; intros E; inversion E.
  reflexivity.
Qed.

Lemma compareByCaseIgnoreMatch_errs (s t : gostring) :
  errs_in not_bounds_error (compareByCaseIgnoreMatch s t).
Proof.
  unfold compareByCaseIgnoreMatch.
  destruct (stringPrepare s) as [sr [e|]] eqn:Es.
  - simpl. eapply stringPrepare_errs; eassumption.
  - destruct (stringPrepare t) as [tr [e|]] eqn:Et.
    + simpl. eapply stringPrepare_errs; eassumption.
    + destruct (bytes_eqb _ _); exact I.
Qed.

Lemma compareAttribute_errs (x y : attribute) :
  errs_in not_bounds_error (compareAttribute x y).
Proof.
  unfold compareAttribute.
  pose proof (fun src => errs_in_weaken _ _ _ decode_not_bounds
                           (toString_errs src)).
  pose proof compareByCaseIgnoreMatch_errs.
  errs.
Qed.

Lemma scan_errs (atv : attribute) (r : rdnSET) :
  errs_in not_bounds_error (scan atv r).
Proof.
  induction r as [|y r IH]; simpl.
  - exact I.
  - pose proof compareAttribute_errs. errs.
Qed.

Lemma greedy_errs (xr rest : rdnSET) : errs_in not_bounds_error (greedy xr rest).
Proof.
  revert rest. induction xr as [|x xr IH]; intros rest; simpl.
  - exact I.
  - pose proof scan_errs. errs.
Qed.

Lemma compareRelativeDistinguishedName_errs (xr yr : rdnSET) :
  errs_in not_bounds_error (compareRelativeDistinguishedName xr yr).
Proof.
  rewrite compareRelativeDistinguishedName_greedy.
  pose proof greedy_errs. errs.
Qed.

Lemma positional_errs (xd yd : dn) : errs_in not_bounds_error (positional xd yd).
Proof.
  revert yd. induction xd as [|x xd IH]; intros [|y yd]; simpl; try exact I.
  pose proof compareRelativeDistinguishedName_errs. errs.
Qed.

Lemma Compare_errs (issuer subject : bytes) :
  errs_in not_bounds_error (Compare issuer subject).
Proof.
  unfold Compare.
  pose proof (fun b => errs_in_weaken _ _ _ decode_not_bounds (parseDn_errs b)).
  pose proof positional_errs.
  repeat errs_step; auto.
  rewrite compareDistinguishedName_positional. errs.
Qed.

Lemma compareAttribute_no_panic (x y : attribute) :
  no_panic (compareAttribute x y).
Proof.
  unfold compareAttribute, compareByCaseIgnoreMatch.
  pose proof toString_no_panic. np.
Qed.

Lemma scan_no_panic (atv : attribute) (r : rdnSET) : no_panic (scan atv r).
Proof.
  induction r as [|y r IH]; simpl; [exact I|].
  pose proof compareAttribute_no_panic. np.
Qed.

Lemma greedy_no_panic (xr rest : rdnSET) : no_panic (greedy xr rest).
Proof.
  revert rest. induction xr as [|x xr IH]; intros rest; simpl; [exact I|].
  pose proof scan_no_panic. np.
Qed.

Lemma compareRelativeDistinguishedName_no_panic (xr yr : rdnSET) :
  no_panic (compareRelativeDistinguishedName xr yr).
Proof.
  rewrite compareRelativeDistinguishedName_greedy.
  pose proof greedy_no_panic. np.
Qed.

Lemma positional_no_panic (xd yd : dn) : no_panic (positional xd yd).
Proof.
  revert yd. induction xd as [|x xd IH]; intros [|y yd]; simpl; try exact I.
  pose proof compareRelativeDistinguishedName_no_panic. np.
Qed.

(** [Compare] is total: it returns a boolean or an error, it never panics
    and no loop of the model runs out of its budget. *)
Lemma Compare_no_panic (issuer subject : bytes) :
  no_panic (Compare issuer subject).
Proof.
  unfold Compare. pose proof parseDn_no_panic. pose proof positional_no_panic.
  repeat np_step; auto.
  rewrite compareDistinguishedName_positional. np.
Qed.

(** C10. Whenever the loop of [findMatchedAttribute] has read [rest[i]], the
    index [i] is in range for [rest] and [removeAttribute(i, rest)] succeeds;
    so [findMatchedAttribute] is the scan that removes without any bounds
    test, and [Compare] never returns the error "dn: rdnSET bounds out of
    range". *)
Theorem removeAttribute_bounds_error_unreachable
    (atv : attribute) (rest : rdnSET) (issuer subject : bytes) :
  (forall i y, nth_error rest i = Some y ->
     0 <= Z.of_nat i < Z.of_nat (List.length rest)
     /\ removeAttribute (Z.of_nat i) rest
        = Ok (firstn i rest ++ skipn (i + 1) rest))
  /\ findMatchedAttribute atv rest = scan atv rest
  /\ Compare issuer subject <> Err BoundsError.
Proof.
  repeat split.
  - lia.
  - apply Nat2Z.inj_lt, nth_error_Some. congruence.
  - apply removeAttribute_in_range, nth_error_Some. congruence.
  - apply findMatchedAttribute_scan.
  - intros E. pose proof (Compare_errs issuer subject) as B.
    rewrite E in B. discriminate.
Qed.


(** ** The attribute value comparator *)


Lemma toString_nonempty (src : bytes) (s : gostring) :
  toString src = Ok s -> src <> [].
Proof. intros E ->. discriminate. Qed.

Lemma compareByBinaryComparison_nonempty (x y : bytes) :
  x <> [] -> y <> [] -> compareByBinaryComparison x y = bytes_eqb x y.
Proof.
  intros Hx Hy. unfold compareByBinaryComparison.
  destruct x; [congruence|]. destruct y; [congruence|]. simpl.
  destruct (bytes_eqb _ _); reflexivity.
Qed.




(** ** The comparator decides equality of keys *)

Lemma key_eqb_eq k1 k2 : key_eqb k1 k2 = true <-> k1 = k2.
Proof.
  unfold key_eqb. destruct k1 as [o1 [c1 p1]], k2 as [o2 [c2 p2]]. simpl.
  destruct (list_eq_dec Z.eq_dec o1 o2), (Z.eq_dec c1 c2),
    (list_eq_dec Z.eq_dec p1 p2); split; intros E; try discriminate;
    try inversion E; subst; congruence.
Qed.

Lemma isComparableDirectoryString_and (tx ty : Z) :
  isComparableDirectoryString tx ty
  = isDirectoryStringTag tx && isDirectoryStringTag ty.
Proof.
  unfold isComparableDirectoryString, isDirectoryStringTag.
  destruct (tx =? asn1.TagUTF8String), (tx =? asn1.TagPrintableString),
    (ty =? asn1.TagUTF8String), (ty =? asn1.TagPrintableString); reflexivity.
Qed.

Lemma compareByCaseIgnoreMatch_prepared (s t : gostring) :
  snd (stringPrepare s) = None -> snd (stringPrepare t) = None ->
  compareByCaseIgnoreMatch s t
  = Ok (bytes_eqb (utf8.string_of_runes (fst (stringPrepare s)))
                  (utf8.string_of_runes (fst (stringPrepare t)))).
Proof.
  unfold compareByCaseIgnoreMatch.
  destruct (stringPrepare s) as [sr es], (stringPrepare t) as [tr et]. simpl.
  intros -> ->. destruct (bytes_eqb _ _); reflexivity.
Qed.

Lemma compareByCaseIgnoreMatch_Ok (s t : gostring) (b : bool) :
  compareByCaseIgnoreMatch s t = Ok b ->
  snd (stringPrepare s) = None /\ snd (stringPrepare t) = None.
Proof.
  unfold compareByCaseIgnoreMatch.
  destruct (stringPrepare s) as [sr [e|]]; [discriminate|].
  destruct (stringPrepare t) as [tr [e|]]; [discriminate|]. auto.
Qed.

(** Two attributes as decoded whose raw encodings are the same bytes have
    the same tag. *)
Lemma asDecoded_same_bytes (a b : attribute) (s t : gostring) :
  asDecoded a = true -> asDecoded b = true ->
  toString (asn1.FullBytes (RawValue a)) = Ok s ->
  toString (asn1.FullBytes (RawValue b)) = Ok t ->
  asn1.FullBytes (RawValue a) = asn1.FullBytes (RawValue b) ->
  asn1.Tag (RawValue a) = asn1.Tag (RawValue b).
Proof.
  intros Ha Hb Es Et E.
  rewrite (asDecoded_Tag _ _ Ha Es), (asDecoded_Tag _ _ Hb Et), E.
  reflexivity.
Qed.

Lemma compareAttribute_true_clean (a b : attribute) :
  asDecoded a = true -> asDecoded b = true ->
  compareAttribute a b = Ok true ->
  clean a = true /\ clean b = true.
Proof.
  intros Ha Hb. unfold compareAttribute, clean.
  destruct (asn1.ObjectIdentifier_Equal (Oid a) (Oid b)) eqn:Eo; simpl;
    [|discriminate].
  apply ObjectIdentifier_Equal_eq in Eo.
  destruct (toString (asn1.FullBytes (RawValue a))) as [s|e|] eqn:Es; simpl;
    try discriminate.
  destruct (toString (asn1.FullBytes (RawValue b))) as [t|e|] eqn:Et; simpl;
    try discriminate.
  rewrite <- Eo.
  destruct (asn1.ObjectIdentifier_Equal (Oid a) oidDomainComponent); simpl.
  - destruct (asn1.Tag (RawValue a) =? asn1.TagIA5String),
      (asn1.Tag (RawValue b) =? asn1.TagIA5String); simpl; try discriminate.
    auto.
  - rewrite isComparableDirectoryString_and.
    destruct (isDirectoryStringTag (asn1.Tag (RawValue a))) eqn:Da,
      (isDirectoryStringTag (asn1.Tag (RawValue b))) eqn:Db; simpl; auto.
    + intros E. apply compareByCaseIgnoreMatch_Ok in E.
      destruct E as [-> ->]. auto.
    + intros E. inversion E as [E']. exfalso.
      rewrite compareByBinaryComparison_nonempty in E'
        by (eapply toString_nonempty; eassumption).
      apply bytes_eqb_eq in E'.
      pose proof (asDecoded_same_bytes _ _ _ _ Ha Hb Es Et E'). congruence.
    + intros E. inversion E as [E']. exfalso.
      rewrite compareByBinaryComparison_nonempty in E'
        by (eapply toString_nonempty; eassumption).
      apply bytes_eqb_eq in E'.
      pose proof (asDecoded_same_bytes _ _ _ _ Ha Hb Es Et E'). congruence.
Qed.

Lemma compareAttribute_key (a b : attribute) :
  asDecoded a = true -> asDecoded b = true ->
  clean a = true -> clean b = true ->
  compareAttribute a b = Ok (key_eqb (key a) (key b)).
Proof.
  intros Ha Hb. unfold compareAttribute, clean, key.
  destruct (toString (asn1.FullBytes (RawValue a))) as [s|e|] eqn:Es; simpl;
    try discriminate.
  destruct (toString (asn1.FullBytes (RawValue b))) as [t|e|] eqn:Et; simpl;
    try discriminate.
  destruct (asn1.ObjectIdentifier_Equal (Oid a) (Oid b)) eqn:Eo; simpl.
  - apply ObjectIdentifier_Equal_eq in Eo. rewrite <- Eo.
    destruct (asn1.ObjectIdentifier_Equal (Oid a) oidDomainComponent); simpl.
    + intros Ta Tb. rewrite Ta, Tb. simpl. f_equal.
      apply Z.eqb_eq in Ta, Tb.
      unfold compareByCaseInsensitiveExactMatch.
      rewrite (EqualFold_ASCII s t
                 (asDecoded_IA5_isASCII a s Ha Es Ta)
                 (asDecoded_IA5_isASCII b t Hb Et Tb)).
      unfold key_eqb. simpl.
      destruct (list_eq_dec Z.eq_dec (Oid a) (Oid a)); [|congruence].
      reflexivity.
    + rewrite isComparableDirectoryString_and.
      destruct (isDirectoryStringTag (asn1.Tag (RawValue a))) eqn:Da,
        (isDirectoryStringTag (asn1.Tag (RawValue b))) eqn:Db; simpl.
      * intros Pa Pb.
        assert (snd (stringPrepare s) = None) as Ps
          by (destruct (snd (stringPrepare s)); congruence).
        assert (snd (stringPrepare t) = None) as Pt
          by (destruct (snd (stringPrepare t)); congruence).
        rewrite (compareByCaseIgnoreMatch_prepared s t Ps Pt).
        f_equal. unfold key_eqb. simpl.
        destruct (list_eq_dec Z.eq_dec (Oid a) (Oid a)); [|congruence].
        destruct (bytes_eqb _ _) eqn:Eb.
        -- apply bytes_eqb_eq in Eb. rewrite Eb.
           destruct (list_eq_dec Z.eq_dec _ _); congruence.
        -- destruct (list_eq_dec Z.eq_dec _ _) as [El|]; [|reflexivity].
           apply map_u8_inj in El. apply bytes_eqb_eq in El. congruence.
      * intros _ _. f_equal.
        rewrite compareByBinaryComparison_nonempty
          by (eapply toString_nonempty; eassumption).
        unfold key_eqb. simpl.
        destruct (list_eq_dec Z.eq_dec (Oid a) (Oid a)); [|congruence].
        destruct (bytes_eqb _ _) eqn:Eb; [|reflexivity].
        apply bytes_eqb_eq in Eb.
        pose proof (asDecoded_same_bytes _ _ _ _ Ha Hb Es Et Eb). congruence.
      * intros _ _. f_equal.
        rewrite compareByBinaryComparison_nonempty
          by (eapply toString_nonempty; eassumption).
        unfold key_eqb. simpl.
        destruct (list_eq_dec Z.eq_dec (Oid a) (Oid a)); [|congruence].
        destruct (bytes_eqb _ _) eqn:Eb; [|reflexivity].
        apply bytes_eqb_eq in Eb.
        pose proof (asDecoded_same_bytes _ _ _ _ Ha Hb Es Et Eb). congruence.
      * intros _ _. f_equal.
        rewrite compareByBinaryComparison_nonempty
          by (eapply toString_nonempty; eassumption).
        unfold key_eqb. simpl.
        destruct (list_eq_dec Z.eq_dec (Oid a) (Oid a)); [|congruence].
        destruct (bytes_eqb _ _) eqn:Eb.
        -- apply bytes_eqb_eq in Eb. rewrite Eb.
           destruct (list_eq_dec Z.eq_dec _ _); congruence.
        -- destruct (list_eq_dec Z.eq_dec _ _) as [El|]; [|reflexivity].
           apply map_u8_inj in El. apply bytes_eqb_eq in El. congruence.
  - intros _ _. f_equal. symmetry.
    destruct (key_eqb _ _) eqn:Ek; [|reflexivity].
    apply key_eqb_eq in Ek. exfalso.
    assert (Oid a = Oid b) as Eab.
    { repeat match type of Ek with
             | context [if ?c then _ else _] => destruct c
             end; inversion Ek; reflexivity. }
    apply ObjectIdentifier_Equal_eq in Eab. congruence.
Qed.


(** ** The greedy pairing decides equality of the multisets of keys *)

Lemma scan_found (x : attribute) (r rest : rdnSET) :
  scan x r = Ok (true, rest) ->
  exists l1 y l2, r = l1 ++ y :: l2 /\ rest = l1 ++ l2
                  /\ compareAttribute x y = Ok true.
Proof.
  revert rest. induction r as [|y r IH]; intros rest; simpl; [discriminate|].
  destruct (compareAttribute x y) as [[|]|e|] eqn:E; simpl; try discriminate.
  - intros E'. inversion E'; subst. exists [], y, rest. auto.
  - destruct (scan x r) as [[found rest']|e|]; simpl; try discriminate.
    intros E'. inversion E'; subst.
    destruct (IH rest' eq_refl) as (l1 & y' & l2 & -> & -> & Hy).
    exists (y :: l1), y', l2. auto.
Qed.

Lemma scan_key (x : attribute) (r : rdnSET) :
  asDecoded x = true -> clean x = true -> decodedRDN r -> cleanRDN r ->
  In (key x) (map key r) ->
  exists l1 y l2, r = l1 ++ y :: l2 /\ key y = key x
                  /\ scan x r = Ok (true, l1 ++ l2).
Proof.
  intros Dx Cx. induction r as [|y r IH]; intros Dr Cr Hin; [contradiction|].
  inversion Dr as [|? ? Dy Dr']; subst. inversion Cr as [|? ? Cy Cr']; subst.
  simpl. rewrite (compareAttribute_key x y Dx Dy Cx Cy).
  destruct (key_eqb (key x) (key y)) eqn:Ek; simpl.
  - apply key_eqb_eq in Ek. exists [], y, r. auto.
  - destruct Hin as [Hin|Hin].
    { symmetry in Hin. apply key_eqb_eq in Hin. congruence. }
    destruct (IH Dr' Cr' Hin) as (l1 & y' & l2 & -> & Hk & ->).
    exists (y :: l1), y', l2. auto.
Qed.

Lemma greedy_true_keys (xr yr : rdnSET) :
  decodedRDN xr -> decodedRDN yr ->
  List.length xr = List.length yr ->
  greedy xr yr = Ok true ->
  cleanRDN xr /\ cleanRDN yr /\ Permutation (map key xr) (map key yr).
Proof.
  revert yr. induction xr as [|x xr IH]; intros yr Dx Dy Hl.
  - destruct yr; [|discriminate]. intros _.
    repeat split; constructor.
  - simpl. inversion Dx as [|? ? Dx0 Dx']; subst.
    destruct (scan x yr) as [[[|] rest]|e|] eqn:Es; simpl; try discriminate.
    intros Eg. apply scan_found in Es.
    destruct Es as (l1 & y & l2 & -> & -> & Exy).
    apply Forall_app in Dy. destruct Dy as [D1 D2].
    inversion D2 as [|? ? Dy0 D2']; subst.
    destruct (compareAttribute_true_clean x y Dx0 Dy0 Exy) as [Cx Cy].
    pose proof (compareAttribute_key x y Dx0 Dy0 Cx Cy) as Ek.
    rewrite Exy in Ek. inversion Ek as [Ek']. symmetry in Ek'.
    apply key_eqb_eq in Ek'.
    destruct (IH (l1 ++ l2)) as (Cxr & Cr & Hp); auto.
    { apply Forall_app. auto. }
    { rewrite length_app in *. simpl in Hl. lia. }
    apply Forall_app in Cr. destruct Cr as [C1 C2].
    repeat split.
    + constructor; assumption.
    + apply Forall_app. split; [assumption|]. constructor; assumption.
    + simpl. rewrite map_app. simpl. rewrite Ek'.
      apply Permutation_cons_app. rewrite <- map_app. exact Hp.
Qed.

Lemma greedy_keys_true (xr yr : rdnSET) :
  decodedRDN xr -> decodedRDN yr -> cleanRDN xr -> cleanRDN yr ->
  Permutation (map key xr) (map key yr) ->
  greedy xr yr = Ok true.
Proof.
  revert yr. induction xr as [|x xr IH]; intros yr Dx Dy Cx Cy Hp;
    [reflexivity|].
  inversion Dx as [|? ? Dx0 Dx']; subst. inversion Cx as [|? ? Cx0 Cx']; subst.
  simpl in Hp.
  assert (In (key x) (map key yr)) as Hin.
  { eapply Permutation_in; [exact Hp|]. left. reflexivity. }
  destruct (scan_key x yr Dx0 Cx0 Dy Cy Hin) as (l1 & y & l2 & -> & Hk & Es).
  simpl. rewrite Es. simpl.
  apply Forall_app in Dy, Cy. destruct Dy as [D1 D2], Cy as [C1 C2].
  inversion D2; subst. inversion C2; subst.
  apply IH; auto.
  - apply Forall_app. auto.
  - apply Forall_app. auto.
  - rewrite map_app in *. simpl in Hp. rewrite Hk in Hp.
    eapply Permutation_cons_app_inv. exact Hp.
Qed.

(** On RDNs as decoded, [compareRelativeDistinguishedName] answers
    [(true, nil)] exactly when no attribute of either RDN can make a
    comparison fail and the two RDNs have the same multiset of keys. *)
Lemma matched_iff_keys (xr yr : rdnSET) :
  decodedRDN xr -> decodedRDN yr ->
  matched xr yr
  <-> cleanRDN xr /\ cleanRDN yr /\ Permutation (map key xr) (map key yr).
Proof.
  intros Dx Dy. unfold matched.
  rewrite compareRelativeDistinguishedName_greedy. split.
  - destruct (Nat.eqb_spec (List.length xr) (List.length yr)); [|discriminate].
    apply greedy_true_keys; assumption.
  - intros (Cx & Cy & Hp).
    pose proof (Permutation_length Hp) as Hl. rewrite !length_map in Hl.
    rewrite Hl, Nat.eqb_refl. apply greedy_keys_true; assumption.
Qed.

Lemma Forall_Permutation {A} (P : A -> Prop) (l l' : list A) :
  Permutation l l' -> Forall P l -> Forall P l'.
Proof.
  intros Hp F. apply Forall_forall. intros a Ha.
  rewrite Forall_forall in F. apply F.
  eapply Permutation_in; [apply Permutation_sym; exact Hp|exact Ha].
Qed.

Lemma matched_Permutation (xr r r' : rdnSET) :
  decodedRDN xr -> decodedRDN r -> Permutation r r' ->
  matched xr r <-> matched xr r'.
Proof.
  intros Dx Dr Hp.
  assert (decodedRDN r') as Dr' by (eapply Forall_Permutation; eassumption).
  rewrite (matched_iff_keys xr r Dx Dr), (matched_iff_keys xr r' Dx Dr').
  pose proof (Permutation_map key Hp) as Hk.
  split; intros (Cx & Cr & Hpk); repeat split; try assumption.
  - eapply Forall_Permutation; eassumption.
  - eapply Permutation_trans; eassumption.
  - eapply Forall_Permutation; [apply Permutation_sym|]; eassumption.
  - eapply Permutation_trans; [eassumption|apply Permutation_sym; assumption].
Qed.

(** ** The distinguished-name matcher and the entry point *)

Lemma positional_true_iff (xd yd : dn) :
  List.length xd = List.length yd ->
  positional xd yd = Ok true <-> Forall2 matched xd yd.
Proof.
  revert yd. induction xd as [|x xd IH]; intros [|y yd] Hl; try discriminate.
  - simpl. split; auto.
  - simpl. unfold matched at 1.
    destruct (compareRelativeDistinguishedName x y) as [[|]|e|] eqn:E; simpl.
    + rewrite IH by (simpl in Hl; lia). split.
      * intros F. constructor; [exact E|exact F].
      * intros F. inversion F; subst. assumption.
    + split; [discriminate|]. intros F. inversion F; subst.
      unfold matched in *. congruence.
    + split; [discriminate|]. intros F. inversion F; subst.
      unfold matched in *. congruence.
    + split; [discriminate|]. intros F. inversion F; subst.
      unfold matched in *. congruence.
Qed.

Lemma positional_first_failure (xp yp : dn) (x y : rdnSET) (xs ys : dn) :
  Forall2 matched xp yp ->
  compareRelativeDistinguishedName x y <> Ok true ->
  positional (xp ++ x :: xs) (yp ++ y :: ys)
  = compareRelativeDistinguishedName x y.
Proof.
  intros F Hxy. induction F as [|x0 y0 xp yp M F IH]; simpl.
  - destruct (compareRelativeDistinguishedName x y) as [[|]|e|]; simpl;
      congruence.
  - unfold matched in M. rewrite M. simpl. exact IH.
Qed.

(** C7. [compareDistinguishedName] answers [(false, nil)] when the two
    sequences differ in length.  Otherwise it compares the RDNs position by
    position: when the positions before [i] all match and position [i] does
    not, the answer is the answer of [compareRelativeDistinguishedName] at
    position [i] itself, [false] as [false] and an error as the same error,
    whatever comes after; and the answer is [(true, nil)] exactly when every
    position matches. *)
Theorem compareDistinguishedName_pairwise (xd yd : dn) :
  (List.length xd <> List.length yd ->
   compareDistinguishedName xd yd = Ok false)
  /\ (forall xp x xs yp y ys,
        xd = xp ++ x :: xs -> yd = yp ++ y :: ys ->
        List.length xp = List.length yp -> List.length xs = List.length ys ->
        Forall2 matched xp yp ->
        compareRelativeDistinguishedName x y <> Ok true ->
        compareDistinguishedName xd yd
        = compareRelativeDistinguishedName x y)
  /\ (compareDistinguishedName xd yd = Ok true
      <-> List.length xd = List.length yd /\ Forall2 matched xd yd).
Proof.
  rewrite compareDistinguishedName_positional. repeat split.
  - intros Hl. apply Nat.eqb_neq in Hl. rewrite Hl. reflexivity.
  - intros xp x xs yp y ys -> -> Hp Hs F Hxy.
    rewrite !length_app. simpl. rewrite Hp, Hs, Nat.eqb_refl.
    apply positional_first_failure; assumption.
  - destruct (Nat.eqb_spec (List.length xd) (List.length yd)); [|discriminate].
    assumption.
  - destruct (Nat.eqb_spec (List.length xd) (List.length yd)) as [Hl|];
      [|discriminate].
    apply positional_true_iff; assumption.
  - intros [Hl F]. rewrite Hl, Nat.eqb_refl.
    apply positional_true_iff; assumption.
Qed.

(** C6. With empty issuer bytes [Compare] fails with the empty-issuer error,
    whatever the subject; with non-empty issuer bytes and empty subject
    bytes it answers [(false, nil)], whatever the issuer bytes are: they are
    not decoded. *)
Theorem Compare_empty_issuer_or_subject (issuer subject : bytes) :
  issuer <> [] ->
  Compare [] subject = Err EmptyIssuerError /\ Compare issuer [] = Ok false.
Proof.
  intros Hi. split; [reflexivity|].
  unfold Compare. destruct issuer; [congruence|reflexivity].
Qed.

Lemma toString_nil : toString [] = Err (SyntaxError "sequence truncated").
Proof. reflexivity. Qed.

(** C8. Two empty byte sequences compare [false] under
    [compareByBinaryComparison], and two attributes whose raw encodings are
    both empty never match. *)
Theorem empty_values_never_match (x y : attribute) :
  asn1.FullBytes (RawValue x) = [] ->
  asn1.FullBytes (RawValue y) = [] ->
  compareByBinaryComparison (asn1.FullBytes (RawValue x))
                            (asn1.FullBytes (RawValue y)) = false
  /\ compareAttribute x y <> Ok true.
Proof.
  intros Hx Hy. unfold compareAttribute. rewrite Hx, Hy. split; [reflexivity|].
  destruct (asn1.ObjectIdentifier_Equal (Oid x) (Oid y)); simpl;
    discriminate.
Qed.

(** ** Comparing decoded names *)

Lemma parseDn_nonempty (b : bytes) (d : dn) : parseDn b = Ok d -> b <> [].
Proof. intros E ->. discriminate. Qed.

Lemma Compare_parsed (xb yb : bytes) (x y : dn) :
  parseDn xb = Ok x -> parseDn yb = Ok y ->
  Compare xb yb = compareDistinguishedName x y.
Proof.
  intros Ex Ey. unfold Compare.
  pose proof (parseDn_nonempty _ _ Ex) as Nx.
  pose proof (parseDn_nonempty _ _ Ey) as Ny.
  apply length_zero_nil in Nx, Ny. rewrite Nx, Ny, Ex, Ey. reflexivity.
Qed.

Lemma compareDistinguishedName_true (xd yd : dn) :
  compareDistinguishedName xd yd = Ok true
  <-> List.length xd = List.length yd /\ Forall2 matched xd yd.
Proof.
  rewrite compareDistinguishedName_positional. split.
  - destruct (Nat.eqb_spec (List.length xd) (List.length yd)) as [Hl|];
      [|discriminate].
    intros E. split; [assumption|]. apply positional_true_iff; assumption.
  - intros [Hl F]. rewrite Hl, Nat.eqb_refl.
    apply positional_true_iff; assumption.
Qed.

Lemma Forall2_matched_Permutation (x pre post : dn) (r r' : rdnSET) :
  decodedDN x -> decodedRDN r -> Permutation r r' ->
  Forall2 matched x (pre ++ r :: post) ->
  Forall2 matched x (pre ++ r' :: post).
Proof.
  intros Dx Dr Hp F.
  apply Forall2_app_inv_r in F. destruct F as (x1 & x2 & F1 & F2 & ->).
  inversion F2 as [|xr ? x3 ? M F3]; subst.
  apply Forall2_app; [assumption|]. constructor; [|assumption].
  apply Forall_app in Dx. destruct Dx as [_ Dx]. inversion Dx; subst.
  apply (matched_Permutation xr r r'); assumption.
Qed.

Lemma compareDistinguishedName_Permutation (x pre post : dn) (r r' : rdnSET) :
  decodedDN x -> decodedRDN r -> Permutation r r' ->
  compareDistinguishedName x (pre ++ r :: post) = Ok true ->
  compareDistinguishedName x (pre ++ r' :: post) = Ok true.
Proof.
  intros Dx Dr Hp E. apply compareDistinguishedName_true in E.
  destruct E as [Hl F]. apply compareDistinguishedName_true. split.
  - rewrite length_app in *. simpl in *. exact Hl.
  - eapply Forall2_matched_Permutation; eassumption.
Qed.

(** C3, amended.  Let [x] be a decoded DN and let [y'] be the decoded DN [y]
    with the attributes of one RDN permuted.  Comparing [x] with [y']
    answers [(true, nil)] exactly when comparing [x] with [y] does; so the
    two answers are the same boolean whenever neither is an error.  In
    particular, on RDNs as decoded, the greedy pairing answers [(true, nil)]
    for the same RDNs whatever the order of the attributes in the second
    one: it does so exactly when every attribute of both is clean and the
    two RDNs have the same multiset of keys.  (Which error is raised, and
    whether one is raised instead of [false], depends on the order.) *)
Theorem permuting_within_rdn
    (xb yb yb' : bytes) (x pre post : dn) (r r' : rdnSET) :
  parseDn xb = Ok x ->
  parseDn yb = Ok (pre ++ r :: post) ->
  parseDn yb' = Ok (pre ++ r' :: post) ->
  Permutation r r' ->
  (Compare xb yb = Ok true <-> Compare xb yb' = Ok true)
  /\ (forall b b',
        Compare xb yb = Ok b -> Compare xb yb' = Ok b' -> b = b')
  /\ (forall xr, decodedRDN xr ->
        compareRelativeDistinguishedName xr r = Ok true
        <-> compareRelativeDistinguishedName xr r' = Ok true)
  /\ (forall xr, decodedRDN xr ->
        compareRelativeDistinguishedName xr r = Ok true
        <-> cleanRDN xr /\ cleanRDN r
            /\ Permutation (map key xr) (map key r)).
Proof.
  intros Ex Ey Ey' Hp.
  pose proof (parseDn_asDecoded _ _ Ex) as Dx.
  pose proof (parseDn_asDecoded _ _ Ey) as Dy.
  pose proof (parseDn_asDecoded _ _ Ey') as Dy'.
  apply Forall_app in Dy, Dy'. destruct Dy as [_ Dy], Dy' as [_ Dy'].
  inversion Dy as [|? ? Dr _]; subst. inversion Dy' as [|? ? Dr' _]; subst.
  rewrite (Compare_parsed _ _ _ _ Ex Ey), (Compare_parsed _ _ _ _ Ex Ey').
  assert (compareDistinguishedName x (pre ++ r :: post) = Ok true
          <-> compareDistinguishedName x (pre ++ r' :: post) = Ok true) as Hiff.
  { split; apply compareDistinguishedName_Permutation; auto.
    apply Permutation_sym. assumption. }
  split; [exact Hiff|]. split.
  - intros [|] [|] E E'; try reflexivity.
    + apply Hiff in E. congruence.
    + apply Hiff in E'. congruence.
  - split.
    + intros xr Dxr. apply (matched_Permutation xr r r'); assumption.
    + intros xr Dxr. apply (matched_iff_keys xr r); assumption.
Qed.

(** ** Comparing a name with itself *)






(** ** Trailing bytes *)




End Loops.

(** * Further properties of the functions of dn.go *)

Section More.
Context `{Unicode} `{LdapStrPrep}.

(** ** [findMatchedAttribute] and [removeAttribute] *)

Lemma scan_result (atv : attribute) (r : rdnSET) :
  match scan atv r with
  | Ok (true, rest) =>
      exists l1 y l2, r = l1 ++ y :: l2 /\ rest = l1 ++ l2
        /\ compareAttribute atv y = Ok true
        /\ Forall (fun z => compareAttribute atv z = Ok false) l1
  | Ok (false, rest) =>
      rest = r /\ Forall (fun z => compareAttribute atv z = Ok false) r
  | Err e =>
      exists l1 y l2, r = l1 ++ y :: l2
        /\ compareAttribute atv y = Err e
        /\ Forall (fun z => compareAttribute atv z = Ok false) l1
  | Panic => False
  end.
Proof.
  induction r as [|y r IH]; simpl.
  - split; [reflexivity|constructor].
  - pose proof (compareAttribute_no_panic atv y) as Np.
    destruct (compareAttribute atv y) as [[|]|e|] eqn:E; simpl.
    + exists [], y, r. repeat split; auto.
    + destruct (scan atv r) as [[[|] rest]|e|]; simpl.
      * destruct IH as (l1 & y' & l2 & -> & -> & Hy & Hl).
        exists (y :: l1), y', l2. repeat split; auto.
      * destruct IH as [-> Hl]. split; auto.
      * destruct IH as (l1 & y' & l2 & -> & Hy & Hl).
        exists (y :: l1), y', l2. repeat split; auto.
      * exact IH.
    + exists [], y, r. repeat split; auto.
    + exact Np.
Qed.

(** X1. [findMatchedAttribute] removes the first attribute of [r] that
    matches [atv] and nothing else: when it answers [true], [r] splits into
    the attributes before the match, none of which matches, the match, and
    the attributes after it, and the rest is [r] without the match, in the
    same order.  When it answers [false], no attribute of [r] matches and
    the rest is [r] itself.  When it fails, the error is that of the first
    attribute whose comparison is not [false].  It never panics. *)
Theorem findMatchedAttribute_first_match (atv : attribute) (r : rdnSET) :
  match findMatchedAttribute atv r with
  | Ok (true, rest) =>
      exists l1 y l2, r = l1 ++ y :: l2 /\ rest = l1 ++ l2
        /\ compareAttribute atv y = Ok true
        /\ Forall (fun z => compareAttribute atv z = Ok false) l1
  | Ok (false, rest) =>
      rest = r /\ Forall (fun z => compareAttribute atv z = Ok false) r
  | Err e =>
      exists l1 y l2, r = l1 ++ y :: l2
        /\ compareAttribute atv y = Err e
        /\ Forall (fun z => compareAttribute atv z = Ok false) l1
  | Panic => False
  end.
Proof. rewrite findMatchedAttribute_scan. apply scan_result. Qed.

(** X2. An attribute whose type occurs nowhere in [r] is not found, without
    error and without decoding any value: the values of [atv] and of [r]
    may be undecodable. *)
Theorem findMatchedAttribute_other_types (atv : attribute) (r : rdnSET) :
  Forall (fun y => Oid atv <> Oid y) r ->
  findMatchedAttribute atv r = Ok (false, r).
Proof.
  intros F. rewrite findMatchedAttribute_scan.
  induction F as [|y r Hy F IH]; simpl; [reflexivity|].
  unfold compareAttribute at 1.
  destruct (asn1.ObjectIdentifier_Equal (Oid atv) (Oid y)) eqn:E.
  - apply ObjectIdentifier_Equal_eq in E. contradiction.
  - simpl. rewrite IH. reflexivity.
Qed.

Lemma nth_error_remove {A} (r : list A) (i j : nat) :
  nth_error (firstn i r ++ skipn (i + 1) r) j
  = if (j <? i)%nat then nth_error r j else nth_error r (S j).
Proof.
  revert r j. induction i as [|i IH]; intros r j.
  - simpl. destruct r as [|a r]; simpl; [destruct j|]; reflexivity.
  - destruct r as [|a r].
    + simpl. destruct (j <? S i)%nat; destruct j; reflexivity.
    + destruct j as [|j]; [reflexivity|].
      change (nth_error (firstn i r ++ skipn (i + 1) r) j
              = if (j <? i)%nat then nth_error r j else nth_error r (S j)).
      apply IH.
Qed.

(** X3. [removeAttribute(index, r)] fails with the bounds error exactly when
    [index] is negative or not below [len(r)].  Otherwise it returns a slice
    one shorter than [r] that holds the elements of [r] before [index],
    then those after it, in their order. *)
Theorem removeAttribute_removes_one (index : Z) (r : rdnSET) :
  (removeAttribute index r = Err BoundsError
   <-> index < 0 \/ Z.of_nat (List.length r) <= index)
  /\ (0 <= index < Z.of_nat (List.length r) ->
      exists res, removeAttribute index r = Ok res
        /\ S (List.length res) = List.length r
        /\ forall j, nth_error res j
             = if (j <? Z.to_nat index)%nat then nth_error r j
               else nth_error r (S j)).
Proof.
  unfold removeAttribute.
  destruct (Z.ltb_spec index 0) as [Hn|Hn]; simpl.
  - split; [split; auto|lia].
  - destruct (Z.geb_spec index (Z.of_nat (List.length r))) as [Hg|Hg].
    + split; [split; auto; lia|lia].
    + split; [split; [discriminate|lia]|].
      intros _. eexists. split; [reflexivity|]. split.
      * rewrite length_app, length_firstn, length_skipn. lia.
      * intros j. apply nth_error_remove.
Qed.

(** ** [compareRelativeDistinguishedName] *)

Lemma greedy_pairing (xr yr : rdnSET) :
  List.length xr = List.length yr ->
  greedy xr yr = Ok true ->
  exists yr', Permutation yr yr'
    /\ Forall2 (fun x y => compareAttribute x y = Ok true) xr yr'.
Proof.
  revert yr. induction xr as [|x xr IH]; intros yr Hl.
  - destruct yr; [|discriminate]. intros _. exists []. split; constructor.
  - simpl. destruct (scan x yr) as [[[|] rest]|e|] eqn:Es; simpl;
      try discriminate.
    intros Eg. apply scan_found in Es.
    destruct Es as (l1 & y & l2 & -> & -> & Exy).
    destruct (IH (l1 ++ l2)) as (yr' & Hp & F); auto.
    { rewrite length_app in *. simpl in Hl. lia. }
    exists (y :: yr'). split; [|constructor; assumption].
    apply Permutation_sym, Permutation_cons_app, Permutation_sym. exact Hp.
Qed.

(** X4. A match of two RDNs is witnessed by a pairing: when
    [compareRelativeDistinguishedName] answers [(true, nil)], the attributes
    of [yr] can be put in an order in which each one matches the attribute
    of [xr] at its position.  So the two RDNs have the same number of
    attributes and no attribute is paired twice.  (For any attributes,
    decoded or not.) *)
Theorem compareRelativeDistinguishedName_pairing (xr yr : rdnSET) :
  compareRelativeDistinguishedName xr yr = Ok true ->
  exists yr', Permutation yr yr'
    /\ Forall2 (fun x y => compareAttribute x y = Ok true) xr yr'.
Proof.
  rewrite compareRelativeDistinguishedName_greedy.
  destruct (Nat.eqb_spec (List.length xr) (List.length yr)); [|discriminate].
  apply greedy_pairing. assumption.
Qed.

(** ** [compareAttribute] and the functions under it *)

Lemma ObjectIdentifier_Equal_sym (a b : asn1.ObjectIdentifier) :
  asn1.ObjectIdentifier_Equal a b = asn1.ObjectIdentifier_Equal b a.
Proof.
  unfold asn1.ObjectIdentifier_Equal.
  destruct (list_eq_dec Z.eq_dec a b), (list_eq_dec Z.eq_dec b a); congruence.
Qed.

Lemma bytes_eqb_sym (x y : bytes) : bytes_eqb x y = bytes_eqb y x.
Proof.
  unfold bytes_eqb.
  destruct (list_eq_dec Byte.byte_eq_dec x y),
    (list_eq_dec Byte.byte_eq_dec y x); congruence.
Qed.

Lemma compareByBinaryComparison_sym (x y : bytes) :
  compareByBinaryComparison x y = compareByBinaryComparison y x.
Proof.
  unfold compareByBinaryComparison. rewrite (bytes_eqb_sym x y).
  destruct (Nat.eqb (List.length x) 0), (Nat.eqb (List.length y) 0);
    reflexivity.
Qed.

Lemma list_eqb_sym (l l' : list Z) :
  (if list_eq_dec Z.eq_dec l l' then true else false)
  = (if list_eq_dec Z.eq_dec l' l then true else false).
Proof.
  destruct (list_eq_dec Z.eq_dec l l'), (list_eq_dec Z.eq_dec l' l);
    congruence.
Qed.

(** X5. On attributes as decoded, a comparison that answers a boolean
    answers the same boolean with its two arguments exchanged. *)
Theorem compareAttribute_symmetric (x y : attribute) (b : bool) :
  asDecoded x = true -> asDecoded y = true ->
  compareAttribute x y = Ok b -> compareAttribute y x = Ok b.
Proof.
  intros Dx Dy. unfold compareAttribute.
  rewrite (ObjectIdentifier_Equal_sym (Oid y) (Oid x)).
  destruct (asn1.ObjectIdentifier_Equal (Oid x) (Oid y)) eqn:Eo; simpl;
    [|auto].
  apply ObjectIdentifier_Equal_eq in Eo. rewrite <- Eo.
  destruct (toString (asn1.FullBytes (RawValue x))) as [s|e|] eqn:Es; simpl;
    try discriminate.
  destruct (toString (asn1.FullBytes (RawValue y))) as [t|e|] eqn:Et; simpl;
    try discriminate.
  destruct (asn1.ObjectIdentifier_Equal (Oid x) oidDomainComponent); simpl.
  - destruct (Z.eqb_spec (asn1.Tag (RawValue x)) asn1.TagIA5String) as [Tx|];
      destruct (Z.eqb_spec (asn1.Tag (RawValue y)) asn1.TagIA5String) as [Ty|];
      simpl; try discriminate.
    unfold compareByCaseInsensitiveExactMatch.
    rewrite (EqualFold_ASCII s t (asDecoded_IA5_isASCII x s Dx Es Tx)
               (asDecoded_IA5_isASCII y t Dy Et Ty)).
    rewrite (EqualFold_ASCII t s (asDecoded_IA5_isASCII y t Dy Et Ty)
               (asDecoded_IA5_isASCII x s Dx Es Tx)).
    rewrite list_eqb_sym. auto.
  - rewrite !isComparableDirectoryString_and.
    rewrite (andb_comm (isDirectoryStringTag (asn1.Tag (RawValue y)))).
    destruct (isDirectoryStringTag (asn1.Tag (RawValue x))
              && isDirectoryStringTag (asn1.Tag (RawValue y))).
    + intros E. pose proof (compareByCaseIgnoreMatch_Ok _ _ _ E) as [Ps Pt].
      rewrite (compareByCaseIgnoreMatch_prepared s t Ps Pt) in E.
      rewrite (compareByCaseIgnoreMatch_prepared t s Pt Ps).
      rewrite bytes_eqb_sym. exact E.
    + rewrite compareByBinaryComparison_sym. auto.
Qed.

(** X6. For two domain-component attributes as decoded, both tagged
    IA5String, the comparison is equality of the two texts after
    lower-casing the letters A..Z, whatever the Unicode tables say: the
    texts are ASCII and [strings.EqualFold] stays in its ASCII loop.  In
    particular texts of different lengths never match. *)
Theorem domain_component_is_ascii_fold (x y : attribute) (s t : gostring) :
  asDecoded x = true -> asDecoded y = true ->
  Oid x = oidDomainComponent -> Oid y = oidDomainComponent ->
  asn1.Tag (RawValue x) = asn1.TagIA5String ->
  asn1.Tag (RawValue y) = asn1.TagIA5String ->
  toString (asn1.FullBytes (RawValue x)) = Ok s ->
  toString (asn1.FullBytes (RawValue y)) = Ok t ->
  (map foldASCII s = map foldASCII t -> compareAttribute x y = Ok true)
  /\ (map foldASCII s <> map foldASCII t -> compareAttribute x y = Ok false)
  /\ (List.length s <> List.length t -> compareAttribute x y = Ok false).
Proof.
  intros Dx Dy Ox Oy Tx Ty Es Et.
  assert (compareAttribute x y
          = Ok (if list_eq_dec Z.eq_dec (map foldASCII s) (map foldASCII t)
                then true else false)) as E.
  { unfold compareAttribute. rewrite Ox, Oy, Es, Et, Tx, Ty. simpl.
    unfold compareByCaseInsensitiveExactMatch.
    rewrite (EqualFold_ASCII s t (asDecoded_IA5_isASCII x s Dx Es Tx)
               (asDecoded_IA5_isASCII y t Dy Et Ty)).
    reflexivity. }
  rewrite E.
  destruct (list_eq_dec Z.eq_dec (map foldASCII s) (map foldASCII t)) as [El|El].
  - repeat split; auto; try contradiction.
    intros Hl. apply (f_equal (@List.length Z)) in El.
    rewrite !length_map in El. contradiction.
  - repeat split; auto. contradiction.
Qed.

Lemma stringPrepare_error (s : gostring) (e : error) :
  snd (stringPrepare s) = Some e ->
  fst (stringPrepare s) = [] /\ exists msg, e = ProhibitedCharacterError msg.
Proof.
  unfold stringPrepare.
  destruct (IsProhibited _) as [[|] [msg|]]; simpl; intros E;
    inversion E; eauto.
Qed.

Lemma compareByCaseIgnoreMatch_Err (s t : gostring) (e : error) :
  compareByCaseIgnoreMatch s t = Err e
  <-> snd (stringPrepare s) = Some e
      \/ (snd (stringPrepare s) = None /\ snd (stringPrepare t) = Some e).
Proof.
  unfold compareByCaseIgnoreMatch.
  destruct (stringPrepare s) as [sr [es|]]; simpl.
  - split; [intros E; inversion E; auto|].
    intros [E|[E _]]; congruence.
  - destruct (stringPrepare t) as [tr [et|]]; simpl.
    + split; [intros E; inversion E; auto|].
      intros [E|[_ E]]; congruence.
    + split; [destruct (bytes_eqb _ _); discriminate|].
      intros [E|[_ E]]; discriminate.
Qed.

(** X7. [compareByCaseIgnoreMatch] fails exactly when string preparation of
    [s] fails, with that error, or else when preparation of [t] fails, with
    that one; a preparation error comes with no text and is the error of
    [ldapstrprep.IsProhibited].  When it does not fail the answer does not
    depend on the order of [s] and [t], and [s] matches itself. *)
Theorem compareByCaseIgnoreMatch_outcomes (s t : gostring) :
  (forall e, compareByCaseIgnoreMatch s t = Err e
     <-> snd (stringPrepare s) = Some e
         \/ (snd (stringPrepare s) = None /\ snd (stringPrepare t) = Some e))
  /\ (forall e, snd (stringPrepare s) = Some e ->
        fst (stringPrepare s) = []
        /\ exists msg, e = ProhibitedCharacterError msg)
  /\ (forall b, compareByCaseIgnoreMatch s t = Ok b ->
        compareByCaseIgnoreMatch t s = Ok b)
  /\ (snd (stringPrepare s) = None -> compareByCaseIgnoreMatch s s = Ok true).
Proof.
  split; [|split; [|split]].
  - intros e. apply compareByCaseIgnoreMatch_Err.
  - intros e. apply stringPrepare_error.
  - intros b E. pose proof (compareByCaseIgnoreMatch_Ok _ _ _ E) as [Ps Pt].
    rewrite (compareByCaseIgnoreMatch_prepared s t Ps Pt) in E.
    rewrite (compareByCaseIgnoreMatch_prepared t s Pt Ps), bytes_eqb_sym.
    exact E.
  - intros Ps. rewrite (compareByCaseIgnoreMatch_prepared s s Ps Ps).
    rewrite bytes_eqb_refl. reflexivity.
Qed.

(** ** Where the errors of a comparison come from *)

Lemma scan_rest_incl (x : attribute) (r rest : rdnSET) (b : bool) :
  scan x r = Ok (b, rest) -> incl rest r.
Proof.
  pose proof (scan_result x r) as S. intros E. rewrite E in S.
  destruct b.
  - destruct S as (l1 & y & l2 & -> & -> & _).
    intros a Ha. apply in_app_or in Ha. apply in_or_app. simpl. tauto.
  - destruct S as [-> _]. apply incl_refl.
Qed.

Lemma greedy_error (xr rest : rdnSET) (e : error) :
  greedy xr rest = Err e ->
  exists x y, In x xr /\ In y rest /\ compareAttribute x y = Err e.
Proof.
  revert rest. induction xr as [|x xr IH]; intros rest; simpl;
    [discriminate|].
  pose proof (scan_result x rest) as S.
  destruct (scan x rest) as [[[|] rest']|e'|] eqn:Es; simpl;
    try discriminate.
  - intros E. destruct (IH _ E) as (x' & y & Hx & Hy & Exy).
    exists x', y. repeat split; auto.
    eapply scan_rest_incl; eassumption.
  - intros E. inversion E; subst.
    destruct S as (l1 & y & l2 & -> & Ey & _).
    exists x, y. repeat split; auto. apply in_or_app. simpl. tauto.
Qed.

Lemma positional_error (xd yd : dn) (e : error) :
  positional xd yd = Err e ->
  exists i xr yr, nth_error xd i = Some xr /\ nth_error yd i = Some yr
    /\ compareRelativeDistinguishedName xr yr = Err e.
Proof.
  revert yd. induction xd as [|xr xd IH]; intros [|yr yd]; simpl;
    try discriminate.
  destruct (compareRelativeDistinguishedName xr yr) as [[|]|e'|] eqn:E;
    simpl; try discriminate.
  - intros E'. destruct (IH _ E') as (i & xr' & yr' & Hx & Hy & Er).
    exists (S i), xr', yr'. auto.
  - intros E'. inversion E'; subst. exists 0%nat, xr, yr. auto.
Qed.

(** X8. Every error of [compareDistinguishedName] is the error of the
    comparison of two attributes: there is a position [i] and attributes
    [x] of [xd[i]] and [y] of [yd[i]] such that [compareAttribute x y] fails
    with that very error.  The matchers of DNs and RDNs make no error of
    their own. *)
Theorem compareDistinguishedName_error_origin (xd yd : dn) (e : error) :
  compareDistinguishedName xd yd = Err e ->
  exists i xr yr x y,
    nth_error xd i = Some xr /\ nth_error yd i = Some yr
    /\ In x xr /\ In y yr /\ compareAttribute x y = Err e.
Proof.
  rewrite compareDistinguishedName_positional.
  destruct (Nat.eqb (List.length xd) (List.length yd)); [|discriminate].
  intros E. apply positional_error in E.
  destruct E as (i & xr & yr & Hx & Hy & Er).
  rewrite compareRelativeDistinguishedName_greedy in Er.
  destruct (Nat.eqb (List.length xr) (List.length yr)); [|discriminate].
  apply greedy_error in Er. destruct Er as (x & y & Ix & Iy & Exy).
  exists i, xr, yr, x, y. auto.
Qed.

Lemma toString_string_errs (src : bytes) (e : error) :
  toString src = Err e -> e = StringTrailingDataError \/ asn1_error e = true.
Proof.
  unfold toString, asn1_dn.Unmarshal.
  pose proof (asn1_errors.parseField_string_errs src 0) as E.
  destruct (asn1.parseField_string src 0) as [[s o]|e'|]; simpl in *;
    try discriminate.
  - destruct (negb _); [|discriminate]. intros E'. inversion E'. auto.
  - intros E'. inversion E'; subst. auto.
Qed.

(** X9. The errors of [compareAttribute] are of four kinds: an error of
    [encoding/asn1] or the trailing-data error of [toString], for a value
    that is no single ASN.1 string; the domain-component error; an error of
    [ldapstrprep.IsProhibited].  It makes none when the two types differ. *)
Theorem compareAttribute_error_kinds (x y : attribute) (e : error) :
  compareAttribute x y = Err e ->
  Oid x = Oid y
  /\ (asn1_error e = true \/ e = StringTrailingDataError
      \/ e = DomainComponentEncodingError
      \/ exists msg, e = ProhibitedCharacterError msg).
Proof.
  unfold compareAttribute.
  destruct (asn1.ObjectIdentifier_Equal (Oid x) (Oid y)) eqn:Eo; simpl;
    [|discriminate].
  apply ObjectIdentifier_Equal_eq in Eo. intros E. split; [exact Eo|].
  revert E.
  destruct (toString (asn1.FullBytes (RawValue x))) as [s|e'|] eqn:Es; simpl;
    try discriminate.
  2:{ intros E. inversion E; subst.
      destruct (toString_string_errs _ _ Es); auto. }
  destruct (toString (asn1.FullBytes (RawValue y))) as [t|e'|] eqn:Et; simpl;
    try discriminate.
  2:{ intros E. inversion E; subst.
      destruct (toString_string_errs _ _ Et); auto. }
  destruct (_ && _).
  - destruct (_ || _); [|discriminate]. intros E. inversion E. auto.
  - destruct (isComparableDirectoryString _ _); [|discriminate].
    intros E. apply compareByCaseIgnoreMatch_Err in E.
    destruct E as [E|[_ E]]; apply stringPrepare_error in E;
      destruct E as [_ [msg ->]]; eauto.
Qed.

Lemma compareAttribute_errs_kind (x y : attribute) (e : error) :
  compareAttribute x y = Err e -> attribute_error e = true.
Proof.
  unfold compareAttribute.
  destruct (asn1.ObjectIdentifier_Equal (Oid x) (Oid y)); simpl;
    [|discriminate].
  destruct (toString (asn1.FullBytes (RawValue x))) as [s|e'|] eqn:Es; simpl;
    try discriminate.
  2:{ intros E. inversion E; subst.
      destruct (toString_string_errs _ _ Es) as [->|Ha]; [reflexivity|].
      destruct e; simpl in *; congruence. }
  destruct (toString (asn1.FullBytes (RawValue y))) as [t|e'|] eqn:Et; simpl;
    try discriminate.
  2:{ intros E. inversion E; subst.
      destruct (toString_string_errs _ _ Et) as [->|Ha]; [reflexivity|].
      destruct e; simpl in *; congruence. }
  destruct (_ && _).
  - destruct (_ || _); [|discriminate]. intros E. inversion E. reflexivity.
  - destruct (isComparableDirectoryString _ _); [|discriminate].
    intros E. apply compareByCaseIgnoreMatch_Err in E.
    destruct E as [E|[_ E]]; apply stringPrepare_error in E;
      destruct E as [_ [msg ->]]; reflexivity.
Qed.

(** ** [Compare] *)

Lemma Compare_true_inv (a b : bytes) :
  Compare a b = Ok true ->
  exists x y, parseDn a = Ok x /\ parseDn b = Ok y
    /\ compareDistinguishedName x y = Ok true.
Proof.
  unfold Compare.
  destruct (Nat.eqb (List.length a) 0); [discriminate|].
  destruct (Nat.eqb (List.length b) 0); [discriminate|].
  destruct (parseDn a) as [x|e|]; simpl; try discriminate.
  destruct (parseDn b) as [y|e|]; simpl; try discriminate.
  eauto.
Qed.

Lemma matched_sym (xr yr : rdnSET) :
  decodedRDN xr -> decodedRDN yr -> matched xr yr -> matched yr xr.
Proof.
  intros Dx Dy M. apply (matched_iff_keys xr yr Dx Dy) in M.
  destruct M as (Cx & Cy & Hp).
  apply (matched_iff_keys yr xr Dy Dx). repeat split; auto.
  apply Permutation_sym. assumption.
Qed.

Lemma matched_trans (xr yr zr : rdnSET) :
  decodedRDN xr -> decodedRDN yr -> decodedRDN zr ->
  matched xr yr -> matched yr zr -> matched xr zr.
Proof.
  intros Dx Dy Dz M1 M2.
  apply (matched_iff_keys xr yr Dx Dy) in M1.
  apply (matched_iff_keys yr zr Dy Dz) in M2.
  destruct M1 as (Cx & _ & P1), M2 as (_ & Cz & P2).
  apply (matched_iff_keys xr zr Dx Dz). repeat split; auto.
  eapply Permutation_trans; eassumption.
Qed.

Lemma Forall2_matched_sym (x y : dn) :
  decodedDN x -> decodedDN y -> Forall2 matched x y -> Forall2 matched y x.
Proof.
  intros Dx Dy F. revert Dx Dy.
  induction F as [|xr yr x y M F IH]; intros Dx Dy; [constructor|].
  inversion Dx; subst. inversion Dy; subst.
  constructor; [apply matched_sym; assumption|auto].
Qed.

Lemma Forall2_matched_trans (x y z : dn) :
  decodedDN x -> decodedDN y -> decodedDN z ->
  Forall2 matched x y -> Forall2 matched y z -> Forall2 matched x z.
Proof.
  intros Dx Dy Dz F. revert z Dx Dy Dz.
  induction F as [|xr yr x y M F IH]; intros z Dx Dy Dz G.
  - inversion G. constructor.
  - inversion G as [|? zr ? z' M' G']; subst.
    inversion Dx; subst. inversion Dy; subst. inversion Dz; subst.
    constructor; [apply (matched_trans xr yr zr); assumption|auto].
Qed.

(** X10. A match does not depend on which name is the issuer: if
    [Compare a b] answers [(true, nil)], so does [Compare b a]. *)
Theorem Compare_match_symmetric (a b : bytes) :
  Compare a b = Ok true -> Compare b a = Ok true.
Proof.
  intros E. apply Compare_true_inv in E.
  destruct E as (x & y & Ex & Ey & E).
  rewrite (Compare_parsed _ _ _ _ Ey Ex).
  apply compareDistinguishedName_true in E. destruct E as [Hl F].
  apply compareDistinguishedName_true. split; [auto|].
  apply Forall2_matched_sym; auto; eapply parseDn_asDecoded; eassumption.
Qed.

(** X11. Matches chain: if [Compare a b] and [Compare b c] both answer
    [(true, nil)], so does [Compare a c]. *)
Theorem Compare_match_transitive (a b c : bytes) :
  Compare a b = Ok true -> Compare b c = Ok true -> Compare a c = Ok true.
Proof.
  intros E1 E2. apply Compare_true_inv in E1, E2.
  destruct E1 as (x & y & Ex & Ey & E1), E2 as (y' & z & Ey' & Ez & E2).
  assert (y' = y) as -> by congruence.
  rewrite (Compare_parsed _ _ _ _ Ex Ez).
  apply compareDistinguishedName_true in E1, E2.
  destruct E1 as [H1 F1], E2 as [H2 F2].
  apply compareDistinguishedName_true. split; [congruence|].
  apply (Forall2_matched_trans x y z); auto;
    eapply parseDn_asDecoded; eassumption.
Qed.

(** X12. Two names that match have the same shape: both decode, to the same
    number of RDNs, and the RDNs at each position have the same number of
    attributes. *)
Theorem Compare_match_same_shape (a b : bytes) :
  Compare a b = Ok true ->
  exists x y, parseDn a = Ok x /\ parseDn b = Ok y
    /\ List.length x = List.length y
    /\ Forall2 (fun xr yr => List.length xr = List.length yr) x y.
Proof.
  intros E. apply Compare_true_inv in E.
  destruct E as (x & y & Ex & Ey & E). exists x, y.
  apply compareDistinguishedName_true in E. destruct E as [Hl F].
  repeat split; auto.
  clear -F. induction F as [|xr yr x y M F IH]; constructor; auto.
  unfold matched in M. rewrite compareRelativeDistinguishedName_greedy in M.
  destruct (Nat.eqb_spec (List.length xr) (List.length yr)); congruence.
Qed.

(** X13. When [Compare] fails, the error tells where: it is the empty-issuer
    error exactly when the issuer is empty; otherwise issuer and subject
    are both non-empty and the error is the one [parseDn] made for the
    issuer, or, the issuer decoded, the one it made for the subject, or,
    both decoded, the error of the comparison of two of their attributes
    at the same position. *)
Theorem Compare_error_origin (issuer subject : bytes) (e : error) :
  Compare issuer subject = Err e ->
  (issuer = [] /\ e = EmptyIssuerError)
  \/ (issuer <> [] /\ subject <> [] /\ e <> EmptyIssuerError
      /\ (parseDn issuer = Err e
          \/ (exists i, parseDn issuer = Ok i /\ parseDn subject = Err e)
          \/ (exists i s n xr yr x y,
                parseDn issuer = Ok i /\ parseDn subject = Ok s
                /\ nth_error i n = Some xr /\ nth_error s n = Some yr
                /\ In x xr /\ In y yr /\ compareAttribute x y = Err e))).
Proof.
  unfold Compare. destruct issuer as [|c issuer]; simpl.
  { intros E. inversion E. auto. }
  destruct subject as [|c' subject]; simpl; [discriminate|].
  intros E. right. split; [discriminate|]. split; [discriminate|].
  assert (e <> EmptyIssuerError) as Hne.
  { intros ->.
    pose proof (parseDn_errs (c :: issuer)) as Pi.
    pose proof (parseDn_errs (c' :: subject)) as Ps.
    destruct (parseDn (c :: issuer)) as [i|e'|]; simpl in *;
      [|inversion E; subst; simpl in Pi; congruence|discriminate].
    destruct (parseDn (c' :: subject)) as [s|e'|]; simpl in *;
      [|inversion E; subst; simpl in Ps; congruence|discriminate].
    rewrite compareDistinguishedName_positional in E.
    destruct (Nat.eqb _ _); [|discriminate].
    apply positional_error in E.
    destruct E as (n & xr & yr & _ & _ & E).
    rewrite compareRelativeDistinguishedName_greedy in E.
    destruct (Nat.eqb _ _); [|discriminate].
    apply greedy_error in E. destruct E as (x & y & _ & _ & E).
    apply compareAttribute_errs_kind in E. discriminate. }
  split; [exact Hne|].
  destruct (parseDn (c :: issuer)) as [i|e'|]; simpl in *;
    [|left; congruence|discriminate].
  destruct (parseDn (c' :: subject)) as [s|e'|]; simpl in *;
    [|right; left; exists i; split; congruence|discriminate].
  right. right.
  rewrite compareDistinguishedName_positional in E.
  destruct (Nat.eqb _ _); [|discriminate].
  apply positional_error in E. destruct E as (n & xr & yr & Hx & Hy & E).
  rewrite compareRelativeDistinguishedName_greedy in E.
  destruct (Nat.eqb _ _); [|discriminate].
  apply greedy_error in E. destruct E as (x & y & Ix & Iy & E).
  exists i, s, n, xr, yr, x, y. repeat split; assumption.
Qed.

End More.

(** ** What [toString] and [parseDn] accept *)

Module asn1_header.
Import asn1 asn1_dn.

Lemma parseTagAndLength_fields b o t o1 :
  parseTagAndLength b o = Ok (t, o1) ->
  exists c, at_ b o = Some c
    /\ class t = Z.shiftr (u8 c) 6
    /\ isCompound t = (Z.land (u8 c) 0x20 =? 0x20)
    /\ (if Z.land (u8 c) 0x1f =? 0x1f then 0x1f <= tag t
        else tag t = Z.land (u8 c) 0x1f).
Proof.
  intros E. destruct (asn1_shape.parseTagAndLength_tag _ _ _ _ E)
    as (c & Ec & Hc & Ht).
  exists c. repeat split; auto.
  unfold parseTagAndLength in E. rewrite Ec in E.
  apply bind_Ok in E. destruct E as ([tg o2] & _ & E2).
  destruct (at_ b o2); [|discriminate].
  destruct (_ =? 0).
  - inversion E2; subst. reflexivity.
  - destruct (_ =? 0); [discriminate|].
    apply bind_Ok in E2. destruct E2 as ([len o3] & _ & E3).
    destruct (len <? 128); [discriminate|]. inversion E3; subst. reflexivity.
Qed.

(** A header is at least two bytes long. *)
Lemma parseTagAndLength_two b o t o' :
  parseTagAndLength b o = Ok (t, o') -> (o + 2 <= o')%nat.
Proof.
  unfold parseTagAndLength, parseBase128Int.
  destruct (at_ b o); [|discriminate].
  intros E. apply bind_Ok in E. destruct E as ([tg o1] & E1 & E2).
  assert (o < o1)%nat as Ho1.
  { destruct (_ =? 31).
    - apply bind_Ok in E1. destruct E1 as ([tg' o2] & E1 & E3).
      apply asn1_total.parseBase128Int_loop_progress in E1.
      destruct (tg' <? 31); [discriminate|]. inversion E3; subst. lia.
    - inversion E1. lia. }
  destruct (at_ b o1); [|discriminate].
  destruct (_ =? 0).
  - inversion E2. lia.
  - destruct (_ =? 0); [discriminate|].
    apply bind_Ok in E2. destruct E2 as ([len o2] & E2 & E3).
    apply asn1_total.parseLength_loop_progress in E2.
    destruct (len <? 128); [discriminate|]. inversion E3; subst. lia.
Qed.


Lemma sequence_octet (c : byte) :
  Z.shiftr (u8 c) 6 = 0 -> (Z.land (u8 c) 0x20 =? 0x20) = true ->
  Z.land (u8 c) 0x1f = 16 -> c = "0"%byte.
Proof. destruct c; vm_compute; intros; congruence. Qed.

(** What [parseFieldHeader] has checked when it answers, for a target type
    that does not match any tag. *)
Lemma parseFieldHeader_checked b o expectedTag compoundType t inner o' :
  parseFieldHeader b o false expectedTag compoundType = Ok (t, inner, o') ->
  exists c o1, at_ b o = Some c
    /\ parseTagAndLength b o = Ok (t, o1)
    /\ Z.shiftr (u8 c) 6 = 0
    /\ (Z.land (u8 c) 0x20 =? 0x20) = compoundType
    /\ tag t = expectedTag t
    /\ (if Z.land (u8 c) 0x1f =? 0x1f then 0x1f <= tag t
        else tag t = Z.land (u8 c) 0x1f)
    /\ 0 <= length t
    /\ o' = (o1 + Z.to_nat (length t))%nat
    /\ (o' <= List.length b)%nat
    /\ inner = slice b o1 o'.
Proof.
  unfold parseFieldHeader. destruct (Nat.eqb _ _); [discriminate|].
  intros E. apply bind_Ok in E. destruct E as ([t' o1] & E1 & E2).
  destruct (parseTagAndLength_fields _ _ _ _ E1) as (c & Ec & Hc & Hp & Ht).
  simpl in E2.
  destruct (Z.eqb_spec (class t') ClassUniversal) as [Hcl|]; [|discriminate].
  destruct (Z.eqb_spec (tag t') (expectedTag t')) as [Hu|]; [|discriminate].
  simpl in E2.
  destruct (Bool.eqb (isCompound t') compoundType) eqn:Hcmp; [|discriminate].
  simpl in E2.
  destruct (invalidLength _ _ _) eqn:EI; [discriminate|].
  apply asn1_extend.invalidLength_false in EI.
  injection E2 as <- <- <-.
  exists c, o1. apply eqb_prop in Hcmp. unfold ClassUniversal in Hcl.
  destruct EI as [EI1 EI2].
  split; [exact Ec|]. split; [exact E1|]. split; [congruence|].
  split; [congruence|]. split; [exact Hu|]. split; [exact Ht|].
  split; [exact EI1|]. split; [reflexivity|]. split; [exact EI2|].
  reflexivity.
Qed.

End asn1_header.




(** X15. [parseDn] accepts nothing but one SEQUENCE: the input of a
    successful [parseDn] begins with the identifier octet 0x30 and is not
    shorter than two bytes. *)
Theorem parseDn_accepts (dnBytes : bytes) (d : dn) :
  parseDn dnBytes = Ok d ->
  exists rest, dnBytes = "0"%byte :: rest /\ rest <> [].
Proof.
  unfold parseDn, asn1_dn.Unmarshal.
  destruct (asn1_dn.parseField_dn dnBytes 0) as [[v o]|e|] eqn:E; simpl;
    try discriminate.
  intros _. unfold asn1_dn.parseField_dn in E.
  apply bind_Ok in E. destruct E as ([[t inner] o'] & E1 & _).
  apply asn1_header.parseFieldHeader_checked in E1.
  destruct E1 as (c & o1 & Ec & Ep & Hcl & Hp & Hu & Ht & Hlen & Ho & Hb & Hi).
  destruct dnBytes as [|c' rest]; [discriminate|]. inversion Ec; subst c'.
  exists rest. unfold asn1.TagSequence in Hu.
  assert (Z.land (u8 c) 31 = 16) as H16.
  { destruct (Z.land (u8 c) 31 =? 31); lia. }
  rewrite (asn1_header.sequence_octet c Hcl Hp H16). split; [reflexivity|].
  apply asn1_header.parseTagAndLength_two in Ep.
  intros ->. simpl in Hb. lia.
Qed.

(** ** One element and nothing more *)

Module asn1_element.
Import asn1 asn1_dn.





Lemma at_slice (b : bytes) (o n k : nat) (c : byte) :
  at_ b (o + k) = Some c -> (o + k < n)%nat -> at_ (slice b o n) k = Some c.
Proof.
  unfold at_, slice. intros E Hk.
  rewrite nth_error_firstn.
  destruct (Nat.ltb_spec k (n - o)); [|lia].
  rewrite nth_error_skipn. exact E.
Qed.

Lemma parseBase128Int_loop_slice b o n k acc j v o' :
  parseBase128Int_loop b k acc (o + j) = Ok (v, o') -> (o' <= n)%nat ->
  parseBase128Int_loop (slice b o n) k acc j = Ok (v, (o' - o)%nat).
Proof.
  revert acc j. induction k as [|k IH]; intros acc j E Hn.
  - simpl in E. destruct (at_ b (o + j)); discriminate.
  - pose proof (asn1_total.parseBase128Int_loop_progress _ _ _ _ _ _ E) as Hp.
    simpl in E. simpl.
    destruct (at_ b (o + j)) as [c|] eqn:Ec; [|discriminate].
    rewrite (at_slice b o n j c Ec) by lia.
    destruct (_ && _); [discriminate|].
    destruct (_ =? 0).
    + destruct (_ >? _); [discriminate|]. inversion E; subst.
      f_equal. f_equal. lia.
    + apply IH; [|assumption]. rewrite <- E. f_equal. lia.
Qed.

Lemma parseLength_loop_slice b o n m acc j v o' :
  parseLength_loop b m acc (o + j) = Ok (v, o') -> (o' <= n)%nat ->
  parseLength_loop (slice b o n) m acc j = Ok (v, (o' - o)%nat).
Proof.
  revert acc j. induction m as [|m IH]; intros acc j E Hn.
  - simpl in *. inversion E; subst. f_equal. f_equal. lia.
  - simpl in E. simpl.
    destruct (at_ b (o + j)) as [c|] eqn:Ec; [|discriminate].
    assert (o + j < n)%nat.
    { destruct (_ >=? _); [discriminate|]. destruct (_ =? 0); [discriminate|].
      apply asn1_total.parseLength_loop_progress in E. lia. }
    rewrite (at_slice b o n j c Ec) by lia.
    destruct (_ >=? _); [discriminate|]. destruct (_ =? 0); [discriminate|].
    apply IH; [|assumption]. rewrite <- E. f_equal. lia.
Qed.

Lemma parseTagAndLength_slice b o n t o1 :
  parseTagAndLength b o = Ok (t, o1) -> (o1 <= n)%nat ->
  parseTagAndLength (slice b o n) 0 = Ok (t, (o1 - o)%nat).
Proof.
  intros E Hn.
  pose proof (asn1_total.parseTagAndLength_progress _ _ _ _ E) as Hp.
  unfold parseTagAndLength, parseBase128Int in *.
  destruct (at_ b o) as [c|] eqn:Ec; [|discriminate].
  rewrite (at_slice b o n 0 c) by (rewrite ?Nat.add_0_r; auto; lia).
  apply bind_Ok in E. destruct E as ([tg o2] & E1 & E2).
  assert ((if Z.land (u8 c) 31 =? 31
           then
             let* (tg, offset) := parseBase128Int_loop (slice b o n) 5 0 1 in
             if tg <? 31 then Err (SyntaxError "non-minimal tag")
             else Ok (tg, offset)
           else Ok (Z.land (u8 c) 31, 1%nat)) = Ok (tg, (o2 - o)%nat)
          /\ (o < o2)%nat) as [E1' Ho2].
  { destruct (_ =? 31).
    - apply bind_Ok in E1. destruct E1 as ([tg' o3] & E1 & E3).
      pose proof (asn1_total.parseBase128Int_loop_progress _ _ _ _ _ _ E1).
      assert (o3 = o2) by (destruct (tg' <? 31); [discriminate|congruence]).
      subst o3.
      assert (o2 <= n)%nat.
      { destruct (at_ b o2); [|discriminate]. destruct (_ =? 0).
        - inversion E2; subst. lia.
        - destruct (_ =? 0); [discriminate|].
          apply bind_Ok in E2. destruct E2 as ([len o4] & E2 & E4).
          apply asn1_total.parseLength_loop_progress in E2.
          destruct (len <? 128); [discriminate|]. inversion E4; subst. lia. }
      replace (S o) with (o + 1)%nat in E1 by lia.
      rewrite (parseBase128Int_loop_slice _ _ n _ _ _ _ _ E1) by lia.
      simpl. destruct (tg' <? 31); [discriminate|].
      inversion E3; subst. split; [reflexivity|lia].
    - inversion E1; subst. split; [f_equal; f_equal; lia|lia]. }
  rewrite E1'. cbn [bind].
  destruct (at_ b o2) as [c2|] eqn:Ec2; [|discriminate].
  assert (o2 < n)%nat.
  { destruct (_ =? 0).
    - inversion E2; subst. lia.
    - destruct (_ =? 0); [discriminate|].
      apply bind_Ok in E2. destruct E2 as ([len o4] & E2 & E4).
      apply asn1_total.parseLength_loop_progress in E2.
      destruct (len <? 128); [discriminate|]. inversion E4; subst. lia. }
  rewrite (at_slice b o n (o2 - o) c2) by (try lia; rewrite <- Ec2; f_equal; lia).
  destruct (_ =? 0).
  - inversion E2; subst. f_equal. f_equal. lia.
  - destruct (_ =? 0); [discriminate|].
    apply bind_Ok in E2. destruct E2 as ([len o4] & E2 & E4).
    destruct (Z.ltb_spec len 128); [discriminate|]. inversion E4; subst.
    replace (S o2) with (o + S (o2 - o))%nat in E2 by lia.
    rewrite (parseLength_loop_slice _ _ n _ _ _ _ _ E2) by lia.
    simpl. destruct (Z.ltb_spec len 128); [lia|]. reflexivity.
Qed.

Lemma parseField_RawValue_oneElement b o raw o' :
  parseField_RawValue b o = Ok (raw, o') -> oneElement (FullBytes raw).
Proof.
  unfold parseField_RawValue. intros E.
  apply bind_Ok in E. destruct E as ([[t inner] o1] & E1 & E2).
  inversion E2; subst. clear E2. simpl.
  unfold parseFieldHeader in E1.
  destruct (Nat.eqb _ _); [discriminate|].
  apply bind_Ok in E1. destruct E1 as ([t' o2] & E1 & E2).
  simpl in E2.
  destruct (invalidLength _ _ _) eqn:EI; [discriminate|].
  apply asn1_extend.invalidLength_false in EI. destruct EI as [EI1 EI2].
  inversion E2; subst. clear E2.
  pose proof (asn1_total.parseTagAndLength_progress _ _ _ _ E1) as Hp.
  exists t, (o2 - o)%nat. split; [|split].
  - apply parseTagAndLength_slice; [assumption|lia].
  - assumption.
  - unfold slice. rewrite length_firstn, length_skipn. lia.
Qed.

End asn1_element.

Lemma parseField_attribute_oneElement b o a o' :
  asn1_dn.parseField_attribute b o = Ok (a, o') ->
  oneElement (asn1.FullBytes (RawValue a)).
Proof.
  unfold asn1_dn.parseField_attribute. intros E.
  apply bind_Ok in E. destruct E as ([[t inner] o1] & _ & E).
  apply bind_Ok in E. destruct E as ([oid o2] & _ & E).
  apply bind_Ok in E. destruct E as ([raw o3] & E & E2).
  inversion E2; subst. eapply asn1_element.parseField_RawValue_oneElement; eassumption.
Qed.

Lemma parseField_rdnSET_oneElement b o r o' :
  asn1_dn.parseField_rdnSET b o = Ok (r, o') ->
  Forall (fun a => oneElement (asn1.FullBytes (RawValue a))) r.
Proof.
  unfold asn1_dn.parseField_rdnSET. intros E.
  apply bind_Ok in E. destruct E as ([[t inner] o1] & _ & E).
  apply bind_Ok in E. destruct E as (v & E & E2). inversion E2; subst.
  eapply asn1_shape.parseSequenceOf_Forall; [|eassumption].
  apply parseField_attribute_oneElement.
Qed.

Lemma parseField_dn_oneElement b o d o' :
  asn1_dn.parseField_dn b o = Ok (d, o') ->
  Forall (Forall (fun a => oneElement (asn1.FullBytes (RawValue a)))) d.
Proof.
  unfold asn1_dn.parseField_dn. intros E.
  apply bind_Ok in E. destruct E as ([[t inner] o1] & _ & E).
  apply bind_Ok in E. destruct E as (v & E & E2). inversion E2; subst.
  eapply asn1_shape.parseSequenceOf_Forall; [|eassumption].
  apply parseField_rdnSET_oneElement.
Qed.


Lemma toString_oneElement (fb : bytes) :
  oneElement fb -> toString fb <> Err StringTrailingDataError.
Proof.
  intros (t & off & Ep & Hl & Hlen).
  unfold toString, asn1_dn.Unmarshal.
  pose proof (asn1_errors.parseField_string_errs fb 0) as He.
  destruct (asn1.parseField_string fb 0) as [[s o]|e|] eqn:E; cbn [bind].
  - assert (o = List.length fb) as ->.
    { unfold asn1.parseField_string in E.
      apply bind_Ok in E. destruct E as ([[t' inner] o'] & E1 & E2).
      apply bind_Ok in E2. destruct E2 as (v & _ & E3).
      inversion E3; subst. clear E3.
      unfold asn1.parseFieldHeader in E1. destruct (Nat.eqb _ _); [discriminate|].
      rewrite Ep in E1. cbn [bind] in E1.
      destruct (_ || _); [discriminate|].
      destruct (asn1.invalidLength _ _ _); [discriminate|].
      inversion E1; subst. assumption. }
    rewrite skipn_all. simpl. discriminate.
  - simpl in He. intros C. inversion C; subst. discriminate.
  - discriminate.
Qed.

Lemma parseDn_oneElement (dnBytes : bytes) (d : dn) :
  parseDn dnBytes = Ok d ->
  Forall (Forall (fun a => oneElement (asn1.FullBytes (RawValue a)))) d.
Proof.
  unfold parseDn, asn1_dn.Unmarshal.
  destruct (asn1_dn.parseField_dn dnBytes 0) as [[v o]|e|] eqn:E; simpl;
    try discriminate.
  destruct (negb _); [discriminate|]. intros E'. inversion E'; subst.
  eapply parseField_dn_oneElement; eassumption.
Qed.

Lemma parseDn_not_string_trailing (dnBytes : bytes) :
  parseDn dnBytes <> Err StringTrailingDataError.
Proof.
  unfold parseDn, asn1_dn.Unmarshal.
  pose proof (asn1_errors.parseField_dn_errs dnBytes 0) as E.
  destruct (asn1_dn.parseField_dn dnBytes 0) as [[s o]|e|]; simpl in *.
  - destruct (negb _); discriminate.
  - intros C. inversion C; subst. discriminate.
  - discriminate.
Qed.

Section Decoded.
Context `{Unicode} `{LdapStrPrep}.

Lemma compareAttribute_string_trailing (x y : attribute) :
  compareAttribute x y = Err StringTrailingDataError ->
  toString (asn1.FullBytes (RawValue x)) = Err StringTrailingDataError
  \/ toString (asn1.FullBytes (RawValue y)) = Err StringTrailingDataError.
Proof.
  unfold compareAttribute.
  destruct (asn1.ObjectIdentifier_Equal (Oid x) (Oid y)); simpl;
    [|discriminate].
  destruct (toString (asn1.FullBytes (RawValue x))) as [s|e'|] eqn:Es; simpl;
    try discriminate.
  2:{ intros E. inversion E; subst. auto. }
  destruct (toString (asn1.FullBytes (RawValue y))) as [t|e'|] eqn:Et; simpl;
    try discriminate.
  2:{ intros E. inversion E; subst. auto. }
  destruct (_ && _).
  - destruct (_ || _); discriminate.
  - destruct (isComparableDirectoryString _ _); [|discriminate].
    intros E. apply compareByCaseIgnoreMatch_Err in E.
    destruct E as [E|[_ E]]; apply stringPrepare_error in E;
      destruct E as [_ [msg E]]; discriminate.
Qed.

(** X16. The trailing-data error of [toString] never comes out of
    [Compare]: the value that [parseDn] keeps for an attribute is exactly
    one element, so [toString] finds nothing behind the string. *)
Theorem Compare_no_string_trailing_data (issuer subject : bytes) :
  Compare issuer subject <> Err StringTrailingDataError.
Proof.
  unfold Compare.
  destruct (Nat.eqb (List.length issuer) 0); [discriminate|].
  destruct (Nat.eqb (List.length subject) 0); [discriminate|].
  pose proof (parseDn_not_string_trailing issuer) as Ni.
  pose proof (parseDn_not_string_trailing subject) as Ns.
  destruct (parseDn issuer) as [i|e|] eqn:Ei; simpl;
    [|congruence|discriminate].
  destruct (parseDn subject) as [s|e|] eqn:Es; simpl;
    [|congruence|discriminate].
  apply parseDn_oneElement in Ei, Es.
  rewrite compareDistinguishedName_positional.
  destruct (Nat.eqb _ _); [|discriminate].
  intros E. apply positional_error in E.
  destruct E as (n & xr & yr & Hx & Hy & E).
  rewrite compareRelativeDistinguishedName_greedy in E.
  destruct (Nat.eqb _ _); [|discriminate].
  apply greedy_error in E. destruct E as (x & y & Ix & Iy & E).
  apply nth_error_In in Hx, Hy.
  rewrite Forall_forall in Ei, Es.
  pose proof (Ei _ Hx) as Fx. pose proof (Es _ Hy) as Fy.
  rewrite Forall_forall in Fx, Fy.
  apply compareAttribute_string_trailing in E.
  destruct E as [E|E]; revert E; apply toString_oneElement; auto.
Qed.

(** X18. [Compare] answers a boolean or an error on every input: no index
    of [dn.go] goes out of range and no loop needs more iterations than
    its input is long. *)
Theorem Compare_never_panics (issuer subject : bytes) :
  exists r : bool + error,
    Compare issuer subject
    = match r with inl b => Ok b | inr e => Err e end.
Proof.
  pose proof (Compare_no_panic issuer subject) as N.
  destruct (Compare issuer subject) as [b|e|]; [| |contradiction].
  - exists (inl b). reflexivity.
  - exists (inr e). reflexivity.
Qed.

End Decoded.


Import Ascii.

(** ** The test tables of dn_test.go, run on the model *)

Example TestCompare :
  Compare DnTest.dn2b DnTest.dn2b = Ok true
  /\ Compare DnTest.dn8b DnTest.dn8b = Ok true
  /\ Compare DnTest.dn2b DnTest.dn3b = Ok true
  /\ Compare DnTest.dn2b DnTest.dn5b = Ok false
  /\ Compare DnTest.dn1b DnTest.dn1b = Ok true
  /\ Compare DnTest.dn2b DnTest.dn6b = Ok false
  /\ Compare DnTest.dn7b DnTest.dn7b = Err DomainComponentEncodingError
  /\ Compare DnTest.brdnb DnTest.brdnb = Err DnTrailingDataError
  /\ Compare [] DnTest.brdnb = Err EmptyIssuerError
  /\ Compare DnTest.brdnb [] = Ok false.
Proof. vm_compute. repeat split. Qed.

Example Test_compareAttribute :
  compareAttribute DnTest.utf8Atv DnTest.pAtv = Ok true
  /\ compareAttribute DnTest.pAtv DnTest.ia5Atv = Ok false
  /\ compareAttribute DnTest.pAtv DnTest.bmpAtv = Ok false
  /\ compareAttribute DnTest.bmpAtv DnTest.bmpAtv = Ok true
  /\ compareAttribute DnTest.ia5Atv DnTest.ia5Atv = Ok true
  /\ compareAttribute DnTest.wrongDcAtv DnTest.ia5Atv
     = Err DomainComponentEncodingError
  /\ compareAttribute DnTest.brokenAtv
       (mkAttribute DnTest.oidOrganization (asn1.mkRawValue 0 0 false [] []))
     = Err StringTrailingDataError
  /\ compareAttribute
       (mkAttribute DnTest.oidCountry (asn1.mkRawValue 0 0 false [] []))
       (mkAttribute DnTest.oidLocality (asn1.mkRawValue 0 0 false [] []))
     = Ok false.
Proof. vm_compute. repeat split. Qed.

Example Test_findMatchedAttribute :
  findMatchedAttribute DnTest.pAtv [DnTest.utf8Atv; DnTest.pAtv; DnTest.pAtv]
  = Ok (true, [DnTest.pAtv; DnTest.pAtv])
  /\ findMatchedAttribute DnTest.ia5Atv [DnTest.pAtv; DnTest.pAtv]
     = Ok (false, [DnTest.pAtv; DnTest.pAtv])
  /\ findMatchedAttribute DnTest.pAtv [DnTest.ia5Atv; DnTest.brokenAtv]
     = Err StringTrailingDataError.
Proof. vm_compute. repeat split. Qed.

Example Test_removeAttribute :
  removeAttribute 1 [DnTest.utf8Atv; DnTest.pAtv; DnTest.bmpAtv]
  = Ok [DnTest.utf8Atv; DnTest.bmpAtv]
  /\ removeAttribute 1 [DnTest.utf8Atv] = Err BoundsError
  /\ removeAttribute (-1) [DnTest.utf8Atv] = Err BoundsError.
Proof. vm_compute. repeat split. Qed.

Example Test_compareRelativeDistinguishedName :
  compareRelativeDistinguishedName [DnTest.bmpAtv; DnTest.pAtv]
                                   [DnTest.pAtv; DnTest.bmpAtv] = Ok true
  /\ compareRelativeDistinguishedName
       [DnTest.pAtv; DnTest.ia5Atv; DnTest.bmpAtv]
       [DnTest.ia5Atv; DnTest.pAtv; DnTest.bmpAtv] = Ok true
  /\ compareRelativeDistinguishedName
       [DnTest.pAtv; DnTest.ia5Atv; DnTest.bmpAtv]
       [DnTest.ia5Atv; DnTest.pdAtv; DnTest.bmpAtv] = Ok false
  /\ compareRelativeDistinguishedName [DnTest.pAtv; DnTest.pdAtv] [DnTest.pAtv]
     = Ok false
  /\ compareRelativeDistinguishedName [DnTest.pAtv; DnTest.brokenAtv]
                                      [DnTest.pAtv; DnTest.brokenAtv]
     = Err StringTrailingDataError.
Proof. vm_compute. repeat split. Qed.

Example Test_compareDistinguishedName :
  compareDistinguishedName
    [[DnTest.pAtv]; [DnTest.pdAtv]; [DnTest.utf8Atv]]
    [[DnTest.pAtv]; [DnTest.pdAtv]; [DnTest.utf8Atv]] = Ok true
  /\ compareDistinguishedName
       [[DnTest.pAtv]; [DnTest.pdAtv]; [DnTest.utf8Atv]]
       [[DnTest.pdAtv]; [DnTest.pAtv]; [DnTest.utf8Atv]] = Ok false
  /\ compareDistinguishedName [[DnTest.pAtv]]
       [[DnTest.pAtv]; [DnTest.pdAtv]; [DnTest.utf8Atv]] = Ok false
  /\ compareDistinguishedName [[DnTest.pAtv]; [DnTest.wrongDcAtv]]
                              [[DnTest.pAtv]; [DnTest.wrongDcAtv]]
     = Err DomainComponentEncodingError.
Proof. vm_compute. repeat split. Qed.

Example Test_toString :
  toString (hex.DecodeString "130141") = Ok (hex.DecodeString "41")
  /\ toString (hex.DecodeString "0C0141") = Ok (hex.DecodeString "41")
  /\ toString (hex.DecodeString "160141") = Ok (hex.DecodeString "41")
  /\ toString (hex.DecodeString "16014141") = Err StringTrailingDataError.
Proof. vm_compute. repeat split. Qed.

Example Test_stringPrepare :
  stringPrepare (hex.DecodeString "416263") = ([32; 97; 98; 99; 32], None)
  /\ stringPrepare (hex.DecodeString "666f6f20626172")
     = ([32; 102; 111; 111; 32; 32; 98; 97; 114; 32], None).
Proof. vm_compute. repeat split. Qed.

Example Test_compareByCaseIgnoreMatch :
  compareByCaseIgnoreMatch (hex.DecodeString "666f6f20626172")
                           (hex.DecodeString "466f6f20206261722020")
  = Ok true.
Proof. vm_compute. reflexivity. Qed.

(** ** Runs of the theorems above on concrete inputs *)

Lemma Compare_empty_issuer_or_subject_witness :
  DnTest.brdnb <> []
  /\ Compare [] DnTest.dn1b = Err EmptyIssuerError
  /\ Compare DnTest.brdnb [] = Ok false.
Proof.
  split; [discriminate|].
  apply (Compare_empty_issuer_or_subject DnTest.brdnb DnTest.dn1b). discriminate.
Defined.

Lemma empty_values_never_match_witness :
  compareByBinaryComparison [] [] = false
  /\ compareAttribute
       (mkAttribute DnTest.oidOrganization (asn1.mkRawValue 0 0 false [] []))
       (mkAttribute DnTest.oidOrganization (asn1.mkRawValue 0 0 false [] []))
     <> Ok true.
Proof.
  apply (empty_values_never_match
           (mkAttribute DnTest.oidOrganization (asn1.mkRawValue 0 0 false [] []))
           (mkAttribute DnTest.oidOrganization (asn1.mkRawValue 0 0 false [] [])));
    reflexivity.
Defined.


(** C2 as stated fails: an attribute value that is an INTEGER has a tag
    outside the recognized set, and comparing the attribute with itself is
    an error of the decoder, not a byte comparison; so is comparing the DN
    that holds it with itself. *)








Lemma permuting_within_rdn_witness :
  Compare DnTest.dn1b DnTest.dn1swapped = Ok true.
Proof.
  assert (parseDn DnTest.dn1b
          = Ok ([[DnTest.cJP]] ++ [DnTest.oBAR; DnTest.oFOO] :: [[DnTest.cnABC]])) as E
    by (vm_compute; reflexivity).
  assert (parseDn DnTest.dn1swapped
          = Ok ([[DnTest.cJP]] ++ [DnTest.oFOO; DnTest.oBAR] :: [[DnTest.cnABC]]))
    as E' by (vm_compute; reflexivity).
  destruct (permuting_within_rdn DnTest.dn1b DnTest.dn1b DnTest.dn1swapped
              _ _ _ _ _ E E E' (perm_swap _ _ _)) as [T _].
  apply (proj1 T). vm_compute. reflexivity.
Defined.

(** C3 as stated fails: x has the RDN O=abc + C=JP and y the RDN
    O=abc + O=5 (an INTEGER).  With y as it is, O=abc finds O=abc and C=JP,
    of another type than O=5, finds nothing: [(false, nil)].  With the two
    attributes of y in the other order, O=abc is compared with O=5 first
    and the decoder fails. *)
Lemma permuting_within_rdn_counterexample :
  parseDn DnTest.abcJPb = Ok [[DnTest.oAbc; DnTest.cJP]]
  /\ parseDn DnTest.abcIntb = Ok [[DnTest.oAbc; DnTest.oInt]]
  /\ parseDn DnTest.intAbcb = Ok [[DnTest.oInt; DnTest.oAbc]]
  /\ Compare DnTest.abcJPb DnTest.abcIntb = Ok false
  /\ Compare DnTest.abcJPb DnTest.intAbcb
     = Err (StructuralError "tags don't match").
Proof. vm_compute. repeat split. Qed.


Lemma compareDistinguishedName_pairwise_witness :
  compareDistinguishedName [[DnTest.pAtv]] [[DnTest.pAtv]; [DnTest.pdAtv]]
  = Ok false
  /\ compareDistinguishedName [[DnTest.pAtv]; [DnTest.brokenAtv]; [DnTest.pAtv]]
       [[DnTest.pAtv]; [DnTest.brokenAtv]; [DnTest.pdAtv]]
     = Err StringTrailingDataError.
Proof.
  split.
  - destruct (compareDistinguishedName_pairwise
                [[DnTest.pAtv]] [[DnTest.pAtv]; [DnTest.pdAtv]]) as [T _].
    apply T. discriminate.
  - destruct (compareDistinguishedName_pairwise
                [[DnTest.pAtv]; [DnTest.brokenAtv]; [DnTest.pAtv]]
                [[DnTest.pAtv]; [DnTest.brokenAtv]; [DnTest.pdAtv]])
      as (_ & T & _).
    apply (T [[DnTest.pAtv]] [DnTest.brokenAtv] [[DnTest.pAtv]]
             [[DnTest.pAtv]] [DnTest.brokenAtv] [[DnTest.pdAtv]]);
      try reflexivity.
    + repeat constructor.
    + discriminate.
Defined.

Lemma removeAttribute_bounds_error_unreachable_witness :
  removeAttribute 1 [DnTest.utf8Atv; DnTest.pAtv; DnTest.bmpAtv]
  = Ok [DnTest.utf8Atv; DnTest.bmpAtv].
Proof.
  destruct (removeAttribute_bounds_error_unreachable DnTest.pAtv
              [DnTest.utf8Atv; DnTest.pAtv; DnTest.bmpAtv] [] []) as [T _].
  destruct (T 1%nat DnTest.pAtv eq_refl) as [_ E]. exact E.
Defined.

(** ** The further properties on the values of [dn_test.go] *)

Lemma findMatchedAttribute_other_types_witness :
  findMatchedAttribute DnTest.ia5Atv [DnTest.brokenAtv; DnTest.pAtv]
  = Ok (false, [DnTest.brokenAtv; DnTest.pAtv]).
Proof.
  apply (findMatchedAttribute_other_types DnTest.ia5Atv
           [DnTest.brokenAtv; DnTest.pAtv]).
  repeat constructor; discriminate.
Defined.

Lemma compareRelativeDistinguishedName_pairing_witness :
  exists yr', Permutation [DnTest.ia5Atv; DnTest.utf8Atv] yr'
    /\ Forall2 (fun x y => compareAttribute x y = Ok true)
         [DnTest.pAtv; DnTest.ia5Atv] yr'.
Proof.
  assert (compareRelativeDistinguishedName [DnTest.pAtv; DnTest.ia5Atv]
            [DnTest.ia5Atv; DnTest.utf8Atv] = Ok true) as E
    by (vm_compute; reflexivity).
  exact (compareRelativeDistinguishedName_pairing _ _ E).
Defined.

Lemma compareAttribute_symmetric_witness :
  compareAttribute DnTest.utf8Atv DnTest.pAtv = Ok true.
Proof.
  assert (compareAttribute DnTest.pAtv DnTest.utf8Atv = Ok true) as E
    by (vm_compute; reflexivity).
  exact (compareAttribute_symmetric DnTest.pAtv DnTest.utf8Atv true
           eq_refl eq_refl E).
Defined.

Lemma domain_component_is_ascii_fold_witness :
  compareAttribute DnTest.dcExample DnTest.dcEXAMPLE = Ok true
  /\ compareAttribute DnTest.dcExample DnTest.dcExampleSpace = Ok false.
Proof.
  split.
  - assert (toString (asn1.FullBytes (RawValue DnTest.dcExample))
            = Ok (hex.DecodeString "6578616d706c65")) as Es
      by (vm_compute; reflexivity).
    assert (toString (asn1.FullBytes (RawValue DnTest.dcEXAMPLE))
            = Ok (hex.DecodeString "4558414d504c45")) as Et
      by (vm_compute; reflexivity).
    destruct (domain_component_is_ascii_fold DnTest.dcExample DnTest.dcEXAMPLE
                _ _ eq_refl eq_refl eq_refl eq_refl eq_refl eq_refl Es Et)
      as [T _].
    apply T. vm_compute. reflexivity.
  - assert (toString (asn1.FullBytes (RawValue DnTest.dcExample))
            = Ok (hex.DecodeString "6578616d706c65")) as Es
      by (vm_compute; reflexivity).
    assert (toString (asn1.FullBytes (RawValue DnTest.dcExampleSpace))
            = Ok (hex.DecodeString "6578616d706c6520")) as Et
      by (vm_compute; reflexivity).
    destruct (domain_component_is_ascii_fold DnTest.dcExample
                DnTest.dcExampleSpace
                _ _ eq_refl eq_refl eq_refl eq_refl eq_refl eq_refl Es Et)
      as (_ & _ & T).
    apply T. vm_compute. discriminate.
Defined.

Lemma compareDistinguishedName_error_origin_witness :
  exists i xr yr x y,
    nth_error [[DnTest.pAtv]; [DnTest.utf8Atv; DnTest.brokenAtv]] i = Some xr
    /\ nth_error [[DnTest.utf8Atv]; [DnTest.pAtv; DnTest.pdAtv]] i = Some yr
    /\ In x xr /\ In y yr
    /\ compareAttribute x y = Err StringTrailingDataError.
Proof.
  assert (compareDistinguishedName
            [[DnTest.pAtv]; [DnTest.utf8Atv; DnTest.brokenAtv]]
            [[DnTest.utf8Atv]; [DnTest.pAtv; DnTest.pdAtv]]
          = Err StringTrailingDataError) as E by (vm_compute; reflexivity).
  exact (compareDistinguishedName_error_origin _ _ _ E).
Defined.

Lemma compareAttribute_error_kinds_witness :
  Oid DnTest.wrongDcAtv = Oid DnTest.wrongDcAtv
  /\ (asn1_error DomainComponentEncodingError = true
      \/ DomainComponentEncodingError = StringTrailingDataError
      \/ DomainComponentEncodingError = DomainComponentEncodingError
      \/ exists msg, DomainComponentEncodingError
                     = ProhibitedCharacterError msg).
Proof.
  assert (compareAttribute DnTest.wrongDcAtv DnTest.wrongDcAtv
          = Err DomainComponentEncodingError) as E
    by (vm_compute; reflexivity).
  exact (compareAttribute_error_kinds _ _ _ E).
Defined.

Lemma Compare_match_symmetric_witness :
  Compare DnTest.dn3b DnTest.dn2b = Ok true.
Proof.
  assert (Compare DnTest.dn2b DnTest.dn3b = Ok true) as E
    by (vm_compute; reflexivity).
  exact (Compare_match_symmetric _ _ E).
Defined.

Lemma Compare_match_transitive_witness :
  Compare DnTest.dn3b DnTest.dn4b = Ok true.
Proof.
  assert (Compare DnTest.dn3b DnTest.dn2b = Ok true) as E1
    by (vm_compute; reflexivity).
  assert (Compare DnTest.dn2b DnTest.dn4b = Ok true) as E2
    by (vm_compute; reflexivity).
  exact (Compare_match_transitive _ _ _ E1 E2).
Defined.

Lemma Compare_match_same_shape_witness :
  exists x y, parseDn DnTest.dn1b = Ok x /\ parseDn DnTest.dn1swapped = Ok y
    /\ List.length x = List.length y
    /\ Forall2 (fun xr yr => List.length xr = List.length yr) x y.
Proof.
  assert (Compare DnTest.dn1b DnTest.dn1swapped = Ok true) as E
    by (vm_compute; reflexivity).
  exact (Compare_match_same_shape _ _ E).
Defined.

Lemma Compare_error_origin_witness :
  DnTest.dn1b <> [] /\ DnTest.brdnb <> []
  /\ parseDn DnTest.dn1b <> Err DnTrailingDataError
  /\ parseDn DnTest.brdnb = Err DnTrailingDataError.
Proof.
  assert (Compare DnTest.dn1b DnTest.brdnb = Err DnTrailingDataError) as E
    by (vm_compute; reflexivity).
  assert (parseDn DnTest.dn1b <> Err DnTrailingDataError) as N
    by (vm_compute; discriminate).
  destruct (Compare_error_origin _ _ _ E)
    as [[_ C]|(Ni & Ns & _ & [P|[(i & _ & P)|(i & s & n & xr & yr & x & y
                                                & _ & P & _)]])].
  - discriminate C.
  - contradiction.
  - repeat split; assumption.
  - exfalso. revert P. vm_compute. discriminate.
Defined.


Lemma parseDn_accepts_witness :
  exists rest, DnTest.intDnb = "0"%byte :: rest /\ rest <> [].
Proof.
  assert (parseDn DnTest.intDnb = Ok [[DnTest.oInt]]) as E
    by (vm_compute; reflexivity).
  exact (parseDn_accepts _ _ E).
Defined.

